(** * Procteo-Audio: the VAD segment post-processor and the orchestrator

    A shallow embedding of [src/audio/pipeline/vad_processor.py]
    (class [VADProcessor]) and of the part of
    [src/audio/utils/token_manager.py] it calls.

    Numbers.  The Python code computes on binary64 floats.  The first
    embedding computes on exact rationals ([Q]): every finite float is a
    rational, the comparisons are the exact ones, and [+] and [-] are taken
    without rounding.  Two rationals that denote the same number may differ
    as terms, so results are compared with [==] on their fields.  It carries
    the properties of order, bounds and overlap, which rounding does not
    disturb, and everything that does not depend on numbers.

    The module [Binary64] embeds the post-processor and [process_audio] a
    second time on binary64 numbers, for the properties that hang on what
    the comparisons and [round] see: the rounded difference. *)

From Stdlib Require Import QArith Qminmax Lqa ZArith Lia.
From Stdlib Require Import List Bool String Ascii.
From Stdlib Require Floats.
Import ListNotations.

Local Open Scope string_scope.
Local Open Scope list_scope.
Local Open Scope Q_scope.

(** ** Numbers as Python handles them *)

(** [x < y] on numbers; [Qle_bool] is [<=]. *)
Definition Qlt_bool (x y : Q) : bool := negb (Qle_bool y x).

(** [max(a, b)]: the builtin keeps its first argument unless a later one is
    strictly greater. *)
Definition py_max (a b : Q) : Q := if Qlt_bool a b then b else a.

(** [min(a, b)]: the builtin keeps its first argument unless a later one is
    strictly smaller. *)
Definition py_min (a b : Q) : Q := if Qlt_bool b a then b else a.

(** Nearest integer, ties to the even one: the rounding rule of [round]. *)
Definition round_half_even (x : Q) : Z :=
  let n := Qnum x in
  let d := Zpos (Qden x) in
  let f := (n / d)%Z in
  match (2 * (n mod d) ?= d)%Z with
  | Lt => f
  | Gt => (f + 1)%Z
  | Eq => if Z.even f then f else (f + 1)%Z
  end.

(** [round(x, 3)]: [x] rounded to a multiple of [1/1000]. *)
Definition round3 (x : Q) : Q := round_half_even (x * 1000) # 1000.

(** ** Data *)

(** [pyannote.core.Segment]: the two fields the code reads. *)
Record Segment : Type := mkSegment { start : Q; end_ : Q }.

(** [self.config], with the keys of the default configuration. *)
Record Config : Type := mkConfig {
  model : string;
  confidence_threshold : Q;
  min_duration_s : Q;
  merge_gap_s : Q;
  margin_s : Q;
  onset : Q;
  offset : Q;
  min_duration_on : Q;
  min_duration_off : Q
}.

(** The dictionary [_load_config] falls back to. *)
Definition default_config : Config :=
  mkConfig "pyannote/voice-activity-detection"
           (3 # 10) (3 # 10) (2 # 10) (25 # 100)
           (30 # 100) (25 # 100) (20 # 100) (10 # 100).

(** ** [_post_process_segments] *)

(** The [if duration < self.config["min_duration_s"]: continue] test. *)
Definition too_short (cfg : Config) (segment : Segment) : bool :=
  Qlt_bool (end_ segment - start segment) (min_duration_s cfg).

(** The segment appended for a kept one: margins applied and clamped. *)
Definition with_margins (cfg : Config) (audio_duration : Q)
    (segment : Segment) : Segment :=
  mkSegment (py_max 0 (start segment - margin_s cfg))
            (py_min audio_duration (end_ segment + margin_s cfg)).

(** The first loop, [for segment in segments], with [processed_segments] as
    the accumulator. *)
Fixpoint filter_pad_loop (cfg : Config) (audio_duration : Q)
    (segments processed_segments : list Segment) : list Segment :=
  match segments with
  | [] => processed_segments
  | segment :: rest =>
      if too_short cfg segment
      then filter_pad_loop cfg audio_duration rest processed_segments
      else filter_pad_loop cfg audio_duration rest
             (processed_segments ++ [with_margins cfg audio_duration segment])
  end.

(** The test of the merge loop:
    [next_seg.start - current.end <= self.config["merge_gap_s"]]. *)
Definition close_enough (cfg : Config) (current next_seg : Segment) : bool :=
  Qle_bool (start next_seg - end_ current) (merge_gap_s cfg).

(** The second loop, [for next_seg in processed_segments[1:]], with [merged]
    and [current] as its state. *)
Fixpoint merge_loop (cfg : Config) (rest merged : list Segment)
    (current : Segment) : list Segment * Segment :=
  match rest with
  | [] => (merged, current)
  | next_seg :: rest' =>
      if close_enough cfg current next_seg
      then merge_loop cfg rest' merged
             (mkSegment (start current) (end_ next_seg))
      else merge_loop cfg rest' (merged ++ [current]) next_seg
  end.

(** The merge block: entered when the list is not empty and
    [merge_gap_s > 0]. *)
Definition merge_block (cfg : Config) (processed_segments : list Segment)
    : list Segment :=
  match processed_segments with
  | [] => processed_segments
  | first :: rest =>
      if Qlt_bool 0 (merge_gap_s cfg)
      then let (merged, current) := merge_loop cfg rest [] first in
           merged ++ [current]
      else processed_segments
  end.

(** [VADProcessor._post_process_segments].  With a typed configuration and
    typed segments nothing in the body raises, so the [except] branch (which
    returns the empty list) is not reached. *)
Definition _post_process_segments (cfg : Config) (segments : list Segment)
    (audio_duration : Q) : list Segment :=
  merge_block cfg (filter_pad_loop cfg audio_duration segments []).

(** ** Paths and strings *)

(** Split a character list at the last occurrence of [c]; the second part
    starts with that occurrence. *)
Fixpoint rsplit (c : ascii) (l : list ascii)
    : option (list ascii * list ascii) :=
  match l with
  | [] => None
  | x :: t =>
      match rsplit c t with
      | Some (before, from) => Some (x :: before, from)
      | None => if Ascii.eqb x c then Some ([], x :: t) else None
      end
  end.

(** [Path(p).name] for a path without trailing separator: what follows the
    last ["/"]. *)
Definition path_name (p : list ascii) : list ascii :=
  match rsplit "/"%char p with
  | Some (_, _ :: after) => after
  | _ => p
  end.

(** [(Path(p).stem, Path(p).suffix)]: pathlib cuts the name at its last dot
    [i] when [0 < i < len(name) - 1]. *)
Definition split_ext (name : list ascii) : list ascii * list ascii :=
  match rsplit "."%char name with
  | Some (stem, suffix) =>
      if ((0 <? List.length stem) && (1 <? List.length suffix))%nat
      then (stem, suffix)
      else (name, [])
  | None => (name, [])
  end.

Definition path_stem (p : string) : string :=
  string_of_list_ascii (fst (split_ext (path_name (list_ascii_of_string p)))).

Definition path_suffix (p : string) : string :=
  string_of_list_ascii (snd (split_ext (path_name (list_ascii_of_string p)))).

(** [str.lower] on the ASCII letters. *)
Definition lower_char (c : ascii) : ascii :=
  let n := nat_of_ascii c in
  if ((65 <=? n) && (n <=? 90))%nat then ascii_of_nat (n + 32) else c.

Definition lower (s : string) : string :=
  string_of_list_ascii (map lower_char (list_ascii_of_string s)).

(** [sub in s]. *)
Definition contains (sub s : string) : bool :=
  match String.index 0 sub s with
  | Some _ => true
  | None => false
  end.

(** Truth value of an optional string: [None] and the empty string are
    false. *)
Definition truthy (s : option string) : bool :=
  match s with
  | Some (String _ _) => true
  | _ => false
  end.

(** [a or b] on optional strings. *)
Definition py_or (a b : option string) : option string :=
  if truthy a then a else b.

(** ** Exceptions, results, the outside world *)

(** An exception: [type(e).__name__] and [str(e)]. *)
Record Exn : Type := mkExn { exn_type : string; exn_msg : string }.

Inductive res (A : Type) : Type :=
| Ok (a : A)
| Raise (e : Exn).
Arguments Ok {A} a.
Arguments Raise {A} e.

(** A loaded inference engine (an opaque object, named by a number). *)
Definition Pipeline : Type := nat.

(** What [self.pipeline(audio_path)] may give back. *)
Inductive VadResult : Type :=
| Annotation (timeline : list Segment)   (* has [get_timeline] *)
| SpeechDict (timeline : list Segment)   (* a dict with key ["speech"] *)
| OtherShape.

(** One run of [ffmpeg]. *)
Record FfmpegRun : Type := mkFfmpegRun {
  returncode : Z;
  stderr : string;
  output_written : bool
}.

(** The calls that leave the process. *)
Inductive Call : Type :=
| HubDownload (model_id token : string)
| FromPretrained (model_id token : string)
| ToDevice (p : Pipeline)
| Ffmpeg (video_path audio_path : string)
| HashFile (path : string)
| SfRead (path : string)
| Infer (p : Pipeline) (audio_path : string)
| OsRemove (path : string)
| FfmpegVersion
| WriteReport (source_file : string).

(** The collaborators the code calls, as functions of their arguments. *)
Record Env : Type := mkEnv {
  hf_hub_download : string -> string -> res string;
  from_pretrained : string -> string -> res (option Pipeline);
  to_device : Pipeline -> res Pipeline;
  ffmpeg : string -> string -> res FfmpegRun;
  sha256_file : string -> res string;
  sf_read : string -> res (Z * Z);          (* [len(waveform)], [sample_rate] *)
  infer : Pipeline -> string -> res VadResult;
  ffmpeg_installed : bool;
  torch_version : string;
  torchaudio_version : string;
  time : list Call -> Q                     (* [time.time()] after these calls *)
}.

(** ** The orchestrator's state *)

Record VADProcessor : Type := mkVADProcessor {
  config : Config;
  model_id : string;
  token : option string;
  pipeline : option Pipeline;
  device_str : string;
  initialization_error : option string
}.

(** The object, the scratch files on disk, and the calls made so far. *)
Record Machine : Type := mkMachine {
  self : VADProcessor;
  files : list string;
  calls : list Call
}.

Definition M (A : Type) : Type := Machine -> res A * Machine.

Definition ret {A : Type} (a : A) : M A := fun m => (Ok a, m).

Definition raise {A : Type} (e : Exn) : M A := fun m => (Raise e, m).

Definition bind {A B : Type} (c : M A) (k : A -> M B) : M B :=
  fun m =>
    match c m with
    | (Ok a, m') => k a m'
    | (Raise e, m') => (Raise e, m')
    end.

(** [try: body except Exception as e: handler e]; what [body] did to the
    machine before it raised stays done. *)
Definition try_except {A : Type} (body : M A) (handler : Exn -> M A) : M A :=
  fun m =>
    match body m with
    | (Ok a, m') => (Ok a, m')
    | (Raise e, m') => handler e m'
    end.

Notation "x <- c ;; k" := (bind c (fun x => k))
  (at level 61, c at next level, right associativity).
Notation "c ;;; k" := (bind c (fun _ => k))
  (at level 61, right associativity).

Definition lift {A : Type} (r : res A) : M A := fun m => (r, m).

Definition get_self : M VADProcessor := fun m => (Ok (self m), m).

Definition get_files : M (list string) := fun m => (Ok (files m), m).

Definition get_calls : M (list Call) := fun m => (Ok (calls m), m).

Definition call (c : Call) : M unit :=
  fun m => (Ok tt, mkMachine (self m) (files m) (calls m ++ [c])).

Definition set_pipeline (p : option Pipeline) : M unit :=
  fun m =>
    let s := self m in
    (Ok tt,
     mkMachine (mkVADProcessor (config s) (model_id s) (token s) p
                  (device_str s) (initialization_error s))
               (files m) (calls m)).

Definition set_initialization_error (e : option string) : M unit :=
  fun m =>
    let s := self m in
    (Ok tt,
     mkMachine (mkVADProcessor (config s) (model_id s) (token s) (pipeline s)
                  (device_str s) e)
               (files m) (calls m)).

Definition set_files (fs : list string) : M unit :=
  fun m => (Ok tt, mkMachine (self m) fs (calls m)).

(** ** [TokenManager.check_model_access] *)

(** The dictionary it returns; [details] is absent on success and
    [config_path] on failure. *)
Record AccessStatus : Type := mkAccessStatus {
  success : bool;
  message : string;
  details : option string;
  config_path : option string
}.

Definition check_model_access (env : Env) (model_id token : string)
    : M AccessStatus :=
  call (HubDownload model_id token) ;;;
  match hf_hub_download env model_id token with
  | Ok path =>
      ret (mkAccessStatus true "Accès au modèle confirmé" None (Some path))
  | Raise e =>
      let error_msg := exn_msg e in
      if contains "401" error_msg || contains "Unauthorized" error_msg then
        ret (mkAccessStatus false "Token invalide ou expiré"
               (Some "Vérifiez que votre token HF est valide et non expiré")
               None)
      else if contains "403" error_msg || contains "Forbidden" error_msg then
        ret (mkAccessStatus false "Conditions d'utilisation non acceptées"
               (Some (String.append
                        "Vous devez accepter les conditions d'utilisation pour "
                        (String.append model_id " sur HuggingFace")))
               None)
      else if contains "404" error_msg || contains "Not Found" error_msg then
        ret (mkAccessStatus false "Modèle non trouvé"
               (Some (String.append "Le modèle "
                        (String.append model_id
                           " n'existe pas ou n'est pas accessible")))
               None)
      else
        ret (mkAccessStatus false (String.append "Erreur d'accès: " error_msg)
               (Some "Vérifiez votre connexion réseau et les permissions")
               None)
  end.

(** ** [VADProcessor.initialize_pipeline] *)

(** The four dictionaries [initialize_pipeline] returns. *)
Inductive InitResult : Type :=
| MissingToken
| AccessDenied (access_status : AccessStatus)
| Initialized (access_status : AccessStatus)
| InitFailed (e : Exn).

(** Its ["success"] entry. *)
Definition init_success (r : InitResult) : bool :=
  match r with
  | Initialized _ => true
  | _ => false
  end.

(** Its keys. *)
Definition init_keys (r : InitResult) : list string :=
  match r with
  | MissingToken => ["success"; "message"; "details"]
  | AccessDenied _ => ["success"; "message"; "details"; "access_status"]
  | Initialized _ => ["success"; "message"; "access_status"]
  | InitFailed _ => ["success"; "message"; "details"; "error_type"]
  end%string.

(** Truth value of a dictionary: false only when it has no key. *)
Definition dict_truthy (keys : list string) : bool :=
  match keys with
  | [] => false
  | _ :: _ => true
  end.

Definition NoneType_has_no_to : Exn :=
  mkExn "AttributeError" "'NoneType' object has no attribute 'to'".

Definition initialize_pipeline (env : Env) (hf_token : option string)
    : M InitResult :=
  try_except
    (s <- get_self ;;
     let token := py_or hf_token (token s) in
     match token with
     | Some (String _ _ as tok) =>
         access_status <- check_model_access env (model_id s) tok ;;
         if negb (success access_status)
         then ret (AccessDenied access_status)
         else
           loaded <- (call (FromPretrained (model_id s) tok) ;;;
                      lift (from_pretrained env (model_id s) tok)) ;;
           set_pipeline loaded ;;;
           moved <- match loaded with
                    | Some p => call (ToDevice p) ;;; lift (to_device env p)
                    | None => raise NoneType_has_no_to
                    end ;;
           set_pipeline (Some moved) ;;;
           set_initialization_error None ;;;
           ret (Initialized access_status)
     | _ => ret MissingToken
     end)
    (fun e =>
       set_initialization_error
         (Some (String.append "Erreur initialisation pipeline: " (exn_msg e))) ;;;
       ret (InitFailed e)).

(** ** [VADProcessor.check_prerequisites] *)

Record Health : Type := mkHealth {
  health_torch_version : string;
  health_torchaudio_version : string;
  health_device : string;
  ffmpeg_available : bool;
  config_loaded : bool;
  token_available : bool
}.

Definition check_prerequisites (env : Env) : M Health :=
  s <- get_self ;;
  call FfmpegVersion ;;;
  ret (mkHealth (torch_version env) (torchaudio_version env) (device_str s)
         (ffmpeg_installed env) true (truthy (token s))).

(** ** [VADProcessor._extract_audio_from_video] *)

(** [os.makedirs(".tmp", exist_ok=True)] is taken to succeed.  The run of
    [ffmpeg] may raise (no such program), end with a non-zero return code,
    and in either of the last two cases may or may not have written the
    output file. *)
Definition _extract_audio_from_video (env : Env) (video_path : string)
    : M string :=
  let video_name := path_stem video_path in
  let audio_path :=
    String.append ".tmp/" (String.append video_name ".wav") in
  call (Ffmpeg video_path audio_path) ;;;
  result <- lift (ffmpeg env video_path audio_path) ;;
  fs <- get_files ;;
  (if output_written result then set_files (audio_path :: fs) else ret tt) ;;;
  if negb (returncode result =? 0)%Z
  then raise (mkExn "Exception"
                (String.append "ffmpeg error: " (stderr result)))
  else ret audio_path.

(** ** [VADProcessor._get_file_hash] *)

Definition _get_file_hash (env : Env) (file_path : string) : M string :=
  call (HashFile file_path) ;;;
  lift (sha256_file env file_path).

(** ** [VADProcessor.process_audio] *)

(** One entry of ["events"]. *)
Record SpeechEvent : Type := mkSpeechEvent {
  ev_type : string;
  ev_start : Q;
  ev_end : Q;
  ev_confidence : option Q;
  ev_duration : Q
}.

(** The ["metadata"] dictionary. *)
Record Metadata : Type := mkMetadata {
  source : string;
  input_type : string;
  duration_s : Q;
  profile : string;
  model_used : string;
  device : string;
  processing_time_s : Q;
  rtf : Q;
  segments_count : nat;
  config_used : Config
}.

(** The three dictionaries [process_audio] returns. *)
Inductive ProcessingResult : Type :=
| NotReady (error : string) (health : Health)
| Succeeded (metadata : Metadata) (events : list SpeechEvent)
| Failed (error error_type : string).

(** Its ["success"] entry. *)
Definition result_success (r : ProcessingResult) : bool :=
  match r with
  | Succeeded _ _ => true
  | _ => false
  end.

(** Its ["health"] entry, when it has one. *)
Definition result_health (r : ProcessingResult) : option Health :=
  match r with
  | NotReady _ h => Some h
  | _ => None
  end.

(** The dictionary appended to [final_segments] for one segment. *)
Definition speech_event (segment : Segment) : SpeechEvent :=
  mkSpeechEvent "speech"
    (round3 (start segment))
    (round3 (end_ segment))
    None
    (round3 (end_ segment - start segment)).

(** [save_results]: writes the report and swallows every error; the path it
    returns is not used by [process_audio]. *)
Definition save_results (results : ProcessingResult) (source_file : string)
    : M unit :=
  call (WriteReport source_file).

Definition video_extensions : list string := [".mp4"; ".mkv"; ".avi"; ".mov"].

Definition NoneType_not_callable : Exn :=
  mkExn "TypeError" "'NoneType' object is not callable".

Definition division_by_zero : Exn :=
  mkExn "ZeroDivisionError" "division by zero".

(** The segments read from the inference result (lines 287-302): the
    timeline of an annotation, the timeline of the ["speech"] entry of a
    dictionary, nothing for any other shape. *)
Definition timeline_segments (vad_result : VadResult) : list Segment :=
  match vad_result with
  | Annotation timeline => timeline
  | SpeechDict timeline => timeline
  | OtherShape => []
  end.

(** The [try] body from the file-type test on (lines 259-350).  A loaded
    pipeline object counts as true in [if not self.pipeline], and
    [os.remove] of a file that [os.path.exists] has just found is taken to
    succeed. *)
Definition process_steps (env : Env) (file_path : string) (start_time : Q)
    : M ProcessingResult :=
  let file_ext := lower (path_suffix file_path) in
  let is_video := existsb (String.eqb file_ext) video_extensions in
  audio_path <- (if is_video
                 then _extract_audio_from_video env file_path
                 else ret file_path) ;;
  let input_type := if is_video then "video" else "audio" in
  file_hash <- _get_file_hash env file_path ;;
  read <- (call (SfRead audio_path) ;;; lift (sf_read env audio_path)) ;;
  let (waveform_len, sample_rate) := (read : Z * Z) in
  if (sample_rate =? 0)%Z then raise division_by_zero else
  let audio_duration := inject_Z waveform_len / inject_Z sample_rate in
  s <- get_self ;;
  vad_result <- match pipeline s with
                | Some p => call (Infer p audio_path) ;;;
                            lift (infer env p audio_path)
                | None => raise NoneType_not_callable
                end ;;
  let segments := timeline_segments vad_result in
  let processed_segments :=
    _post_process_segments (config s) segments audio_duration in
  let final_segments := map speech_event processed_segments in
  now <- get_calls ;;
  let processing_time := time env now - start_time in
  let rtf := if Qlt_bool 0 audio_duration
             then processing_time / audio_duration else 0 in
  fs <- get_files ;;
  (if is_video && existsb (String.eqb audio_path) fs
   then call (OsRemove audio_path) ;;;
        set_files (List.remove string_dec audio_path fs)
   else ret tt) ;;;
  let results :=
    Succeeded
      (mkMetadata file_path input_type (round3 audio_duration) "vad"
         (model_id s) (device_str s) (round3 processing_time) (round3 rtf)
         (List.length final_segments) (config s))
      final_segments in
  save_results results file_path ;;;
  ret results.

(** [self.initialization_error or "Pipeline non initialisée"]. *)
Definition error_or_default (e : option string) : string :=
  match py_or e (Some "Pipeline non initialisée") with
  | Some msg => msg
  | None => EmptyString
  end.

Definition process_audio (env : Env) (file_path : string)
    : M ProcessingResult :=
  before <- get_calls ;;
  let start_time := time env before in
  try_except
    (s <- get_self ;;
     match pipeline s with
     | Some _ => process_steps env file_path start_time
     | None =>
         init <- initialize_pipeline env None ;;
         if negb (dict_truthy (init_keys init))
         then
           s' <- get_self ;;
           health <- check_prerequisites env ;;
           ret (NotReady (error_or_default (initialization_error s')) health)
         else process_steps env file_path start_time
     end)
    (fun e => ret (Failed (exn_msg e) (exn_type e))).

(** ** [TokenManager] *)

(** Where a token can come from: whether [st] has a [secrets] attribute,
    what [st.secrets.get] answers (it may raise, for instance when there is
    no secrets file), and [os.environ.get]. *)
Record TokenSources : Type := mkTokenSources {
  has_secrets : bool;
  secrets_get : string -> res (option string);
  environ_get : string -> option string
}.

(** The two attributes of a [TokenManager]. *)
Record TokenManager : Type := mkTokenManager {
  tm_token : option string;
  token_source : option string
}.

(** [TokenManager._load_token]: the secrets entry [HF_TOKEN] first, then the
    environment variable [HUGGINGFACE_HUB_TOKEN]; an exception of the
    secrets lookup leaves the attributes as they were and propagates. *)
Definition _load_token (src : TokenSources) (tm : TokenManager)
    : res unit * TokenManager :=
  match (if has_secrets src then secrets_get src "HF_TOKEN" else Ok None) with
  | Raise e => (Raise e, tm)
  | Ok secret =>
      if truthy secret
      then (Ok tt, mkTokenManager secret (Some "streamlit_secrets"))
      else if truthy (environ_get src "HUGGINGFACE_HUB_TOKEN")
      then (Ok tt, mkTokenManager (environ_get src "HUGGINGFACE_HUB_TOKEN")
                     (Some "environment"))
      else (Ok tt, mkTokenManager None None)
  end.

(** [TokenManager.__init__]. *)
Definition TokenManager_init (src : TokenSources) : res unit * TokenManager :=
  _load_token src (mkTokenManager None None).

Definition get_token (tm : TokenManager) : option string := tm_token tm.

(** The values the dictionaries of this module hold. *)
Inductive PyValue : Type :=
| PyNone
| PyBool (b : bool)
| PyInt (n : Z)
| PyStr (s : string).

(** A dictionary with string keys, in insertion order. *)
Definition PyDict : Type := list (string * PyValue).

(** [d.get(key, default)]. *)
Fixpoint dict_get (d : PyDict) (key : string) (default : PyValue) : PyValue :=
  match d with
  | [] => default
  | (k, v) :: rest => if String.eqb k key then v else dict_get rest key default
  end.

(** Truth value of a value. *)
Definition py_truth (v : PyValue) : bool :=
  match v with
  | PyNone => false
  | PyBool b => b
  | PyInt n => negb (n =? 0)%Z
  | PyStr s => truthy (Some s)
  end.

Definition py_of_option (s : option string) : PyValue :=
  match s with
  | Some t => PyStr t
  | None => PyNone
  end.

(** [TokenManager.get_token_status]; [len] counts the characters of an
    ASCII token. *)
Definition get_token_status (tm : TokenManager) : PyDict :=
  [("available", PyBool (truthy (tm_token tm)));
   ("source", py_of_option (token_source tm));
   ("length", PyInt (match tm_token tm with
                     | Some (String _ _ as t) => Z.of_nat (String.length t)
                     | _ => 0%Z
                     end))].

(** [a != b] on optional strings. *)
Definition option_string_neq (a b : option string) : bool :=
  match a, b with
  | None, None => false
  | Some x, Some y => negb (String.eqb x y)
  | _, _ => true
  end.

(** [TokenManager.refresh_token]. *)
Definition refresh_token (src : TokenSources) (tm : TokenManager)
    : res bool * TokenManager :=
  let old_token := tm_token tm in
  match _load_token src tm with
  | (Ok _, tm') => (Ok (option_string_neq (tm_token tm') old_token), tm')
  | (Raise e, tm') => (Raise e, tm')
  end.

(** What [get_torch_device] asks of [torch]: the import, and the two
    availability probes. *)
Record TorchProbe : Type := mkTorchProbe {
  import_torch : res unit;
  mps_is_available : res bool;
  cuda_is_available : res bool
}.

Definition torch_unbound : Exn :=
  mkExn "UnboundLocalError"
    "cannot access local variable 'torch' where it is not associated with a value".

(** [TokenManager.get_torch_device], as the name of the device.  The
    function imports [torch] in its own body, so [torch] is a local name:
    when the import raises, both handlers fail on [torch.device("cpu")]
    because the name was never bound.  Once the import has succeeded, an
    exception of either probe ends in one of the two handlers, which return
    the CPU device. *)
Definition get_torch_device (probe : TorchProbe) : res string :=
  match import_torch probe with
  | Raise _ => Raise torch_unbound
  | Ok _ =>
      match mps_is_available probe with
      | Raise _ => Ok "cpu"
      | Ok true => Ok "mps"
      | Ok false =>
          match cuda_is_available probe with
          | Raise _ => Ok "cpu"
          | Ok true => Ok "cuda"
          | Ok false => Ok "cpu"
          end
      end
  end.

(** ** [VADProcessor.get_health_status] *)

(** The dictionary [get_health_status] returns. *)
Record HealthStatus : Type := mkHealthStatus {
  initialized : bool;
  status_device : string;
  status_model : string;
  status_config : Config;
  token_status : PyDict;
  last_error : option string;
  prerequisites : Health
}.

(** [VADProcessor.get_health_status]; [token_manager] is the object's
    [self.token_manager]. *)
Definition get_health_status (env : Env) (token_manager : TokenManager)
    : M HealthStatus :=
  s <- get_self ;;
  health <- check_prerequisites env ;;
  ret (mkHealthStatus
         (match pipeline s with Some _ => true | None => false end)
         (device_str s) (model_id s) (config s)
         (get_token_status token_manager)
         (initialization_error s)
         health).

(** ** The health button of the UI ([ui/app.py], lines 43-64) *)

(** The dictionary stored in [st.session_state.health_status], without its
    constant ["timestamp"] entry. *)
Record UiHealth : Type := mkUiHealth {
  ui_token_available : PyValue;
  ui_token_source : PyValue;
  model_accessible : bool;
  model_details : string;
  ui_device : string
}.

(** A value passed where a string is expected. *)
Definition py_str (v : PyValue) : string :=
  match v with
  | PyStr s => s
  | _ => EmptyString
  end.

(** The body of the button: a new [TokenManager], its status, an access
    check when a token is available, and the device.  The assignment to the
    session state and the rerun are left out. *)
Definition ui_check_health (src : TokenSources) (probe : TorchProbe)
    (env : Env) : M UiHealth :=
  token_manager <- (fun m => match TokenManager_init src with
                             | (Ok _, tm) => (Ok tm, m)
                             | (Raise e, _) => (Raise e, m)
                             end) ;;
  let token_status := get_token_status token_manager in
  model_access <-
    (if py_truth (dict_get token_status "available" PyNone)
     then a <- check_model_access env "pyannote/voice-activity-detection"
                 (py_str (dict_get token_status "token" (PyStr EmptyString))) ;;
          ret (Some a)
     else ret None) ;;
  device <- lift (get_torch_device probe) ;;
  ret (mkUiHealth
         (dict_get token_status "available" PyNone)
         (dict_get token_status "source" PyNone)
         (match model_access with Some a => success a | None => false end)
         (match model_access with
          | Some a => match details a with Some d => d | None => EmptyString end
          | None => EmptyString
          end)
         device).

(** ** Predicates on interval lists *)

(** Ascending by [start]: each start is at most the next one. *)
Fixpoint sorted_by_start (l : list Segment) : bool :=
  match l with
  | a :: (b :: _) as t => Qle_bool (start a) (start b) && sorted_by_start t
  | _ => true
  end.

(** Two intervals overlap when each starts before the other ends. *)
Definition overlaps (a b : Segment) : bool :=
  Qlt_bool (start a) (end_ b) && Qlt_bool (start b) (end_ a).

(** No two intervals of the list overlap. *)
Fixpoint non_overlapping (l : list Segment) : bool :=
  match l with
  | [] => true
  | a :: t => forallb (fun b => negb (overlaps a b)) t && non_overlapping t
  end.

(** Every interval lies in [[0, audio_duration]]. *)
Definition within_bounds (audio_duration : Q) (l : list Segment) : Prop :=
  Forall (fun s => 0 <= start s /\ end_ s <= audio_duration) l.

(** The same numbers, field by field. *)
Definition seg_eq (a b : Segment) : Prop :=
  start a == start b /\ end_ a == end_ b.

Definition segs_eq (l1 l2 : list Segment) : Prop := Forall2 seg_eq l1 l2.

(** [R] holds between every element and every later one. *)
Fixpoint pairwise {A : Type} (R : A -> A -> Prop) (l : list A) : Prop :=
  match l with
  | [] => True
  | a :: t => Forall (R a) t /\ pairwise R t
  end.

(** [R] holds between every element and the next one. *)
Fixpoint chain {A : Type} (R : A -> A -> Prop) (l : list A) : Prop :=
  match l with
  | a :: (b :: _) as t => R a b /\ chain R t
  | _ => True
  end.

(** The merge loop read as a recursive function of the accumulated interval
    and the intervals still to come; [merge_loop_from] relates it to the
    loop. *)
Fixpoint merge_from (cfg : Config) (current : Segment) (rest : list Segment)
    : list Segment :=
  match rest with
  | [] => [current]
  | next_seg :: rest' =>
      if close_enough cfg current next_seg
      then merge_from cfg (mkSegment (start current) (end_ next_seg)) rest'
      else current :: merge_from cfg next_seg rest'
  end.

(** ** Auxiliary definitions for the properties *)

(** A configuration with no margin, no minimal duration and the given merge
    gap. *)
Definition bare_config (gap : Q) : Config := mkConfig "m" 0 0 gap 0 0 0 0 0.

Definition start_le (a b : Segment) : Prop := start a <= start b.

(** [a] ends strictly before [b] starts. *)
Definition before (a b : Segment) : Prop := end_ a < start b.

(** The gap from [a] to [b] is above [merge_gap_s]. *)
Definition apart (cfg : Config) (a b : Segment) : Prop :=
  merge_gap_s cfg < start b - end_ a.

(** Long enough to pass the duration filter. *)
Definition long_enough (cfg : Config) (s : Segment) : Prop :=
  min_duration_s cfg <= end_ s - start s.

(** The object with its [pipeline] attribute replaced. *)
Definition with_pipeline (s : VADProcessor) (p : option Pipeline)
    : VADProcessor :=
  mkVADProcessor (config s) (model_id s) (token s) p (device_str s)
    (initialization_error s).

(** The object right after [__init__], for a given resolved token. *)
Definition new_processor (tok : option string) : VADProcessor :=
  mkVADProcessor default_config "pyannote/voice-activity-detection" tok None
    "cpu" None.

(** An outside world in which every collaborator succeeds: a 6 s recording
    with three speech intervals. *)
Definition healthy_env : Env :=
  mkEnv (fun _ _ => Ok "config.yaml")
        (fun _ _ => Ok (Some 1%nat))
        (fun p => Ok p)
        (fun _ _ => Ok (mkFfmpegRun 0 EmptyString true))
        (fun _ => Ok "e3b0c442")
        (fun _ => Ok (96000, 16000)%Z)
        (fun _ _ => Ok (Annotation [mkSegment 0 (1 # 2); mkSegment (5 # 8) 1;
                                    mkSegment 5 (11 # 2)]))
        true "2.1.0" "2.1.0"
        (fun cs => inject_Z (Z.of_nat (List.length cs))).

(** The same world, but the decoder rejects every file. *)
Definition undecodable_env : Env :=
  mkEnv (hf_hub_download healthy_env) (from_pretrained healthy_env)
        (to_device healthy_env) (ffmpeg healthy_env)
        (sha256_file healthy_env)
        (fun _ => Raise (mkExn "LibsndfileError" "Format not recognised."))
        (infer healthy_env)
        true "2.1.0" "2.1.0" (time healthy_env).

(** The same world, but inference runs out of memory. *)
Definition failing_inference_env : Env :=
  mkEnv (hf_hub_download healthy_env) (from_pretrained healthy_env)
        (to_device healthy_env) (ffmpeg healthy_env)
        (sha256_file healthy_env) (sf_read healthy_env)
        (fun _ _ => Raise (mkExn "RuntimeError" "out of memory"))
        true "2.1.0" "2.1.0" (time healthy_env).

(** The same world, but the hub now answers 401. *)
Definition expired_token_env : Env :=
  mkEnv (fun _ _ => Raise (mkExn "HTTPError" "401 Client Error: Unauthorized"))
        (from_pretrained healthy_env)
        (to_device healthy_env) (ffmpeg healthy_env)
        (sha256_file healthy_env) (sf_read healthy_env) (infer healthy_env)
        true "2.1.0" "2.1.0" (time healthy_env).

(** A computation that leaves [self.config] alone. *)
Definition keeps_config {A : Type} (c : M A) : Prop :=
  forall m r m1, c m = (r, m1) -> config (self m1) = config (self m).




(** The intervals that pass the duration filter, padded: what the first
    loop hands to the merge. *)
Definition survivors (cfg : Config) (D : Q) (segments : list Segment)
    : list Segment :=
  map (with_margins cfg D) (filter (fun s => negb (too_short cfg s)) segments).

(** A computation that leaves the observation [f] of the machine alone. *)
Definition preserves {A X : Type} (f : Machine -> X) (c : M A) : Prop :=
  forall m r m1, c m = (r, m1) -> f m1 = f m.

(** A computation that only appends outside calls, all of them in [P]. *)
Definition emits {A : Type} (P : Call -> Prop) (c : M A) : Prop :=
  forall m r m1,
    c m = (r, m1) ->
    exists added, calls m1 = calls m ++ added /\ Forall P added.

(** A computation that always returns. *)
Definition never_raises {A : Type} (c : M A) : Prop :=
  forall m, exists a m1, c m = (Ok a, m1).

(** The attributes of the object that are fixed at construction. *)
Definition fixed_attributes (m : Machine)
    : Config * string * option string * string :=
  (config (self m), model_id (self m), token (self m), device_str (self m)).

(** The object with its [initialization_error] attribute replaced. *)
Definition with_initialization_error (s : VADProcessor) (e : option string)
    : VADProcessor :=
  mkVADProcessor (config s) (model_id s) (token s) (pipeline s)
    (device_str s) e.

(** The calls of the processing steps, as opposed to those of the
    initialization. *)
Definition processing_call (c : Call) : Prop :=
  match c with
  | Ffmpeg _ _ | HashFile _ | SfRead _ | Infer _ _ | OsRemove _
  | WriteReport _ => True
  | _ => False
  end.

(** The scratch file [_extract_audio_from_video] writes for a video. *)
Definition scratch_path (video_path : string) : string :=
  String.append ".tmp/" (String.append (path_stem video_path) ".wav").

(** The file-type test of [process_audio]. *)
Definition is_video_path (file_path : string) : bool :=
  existsb (String.eqb (lower (path_suffix file_path))) video_extensions.

(** The healthy world, but the engine cannot be loaded. *)
Definition unloadable_env : Env :=
  mkEnv (hf_hub_download healthy_env)
        (fun _ _ => Raise (mkExn "OSError" "weights not found"))
        (to_device healthy_env) (ffmpeg healthy_env)
        (sha256_file healthy_env) (sf_read healthy_env) (infer healthy_env)
        true "2.1.0" "2.1.0" (time healthy_env).

(** The healthy world, but moving the engine to the device raises. *)
Definition no_device_env : Env :=
  mkEnv (hf_hub_download healthy_env) (from_pretrained healthy_env)
        (fun _ => Raise (mkExn "RuntimeError" "MPS backend out of memory"))
        (ffmpeg healthy_env)
        (sha256_file healthy_env) (sf_read healthy_env) (infer healthy_env)
        true "2.1.0" "2.1.0" (time healthy_env).

(** The healthy world, but [ffmpeg] fails after writing part of its
    output. *)
Definition broken_video_env : Env :=
  mkEnv (hf_hub_download healthy_env) (from_pretrained healthy_env)
        (to_device healthy_env)
        (fun _ _ => Ok (mkFfmpegRun 1 "Invalid data found" true))
        (sha256_file healthy_env) (sf_read healthy_env) (infer healthy_env)
        true "2.1.0" "2.1.0" (time healthy_env).

(** The calls made before the report is written. *)
Definition not_a_report (c : Call) : Prop :=
  match c with
  | WriteReport _ => False
  | _ => True
  end.

(** The calls of the steps that come before the clean-up. *)
Definition reading_call (c : Call) : Prop :=
  match c with
  | Ffmpeg _ _ | HashFile _ | SfRead _ | Infer _ _ => True
  | _ => False
  end.

(** * The same code on binary64 numbers

    The definitions above compute on exact rationals.  That is enough for
    what the post-processor guarantees about order, bounds and overlap, and
    for everything that does not depend on numbers.  It is not enough where
    the outcome hangs on the last bit of a difference: the code tests
    [end - start < min_duration_s] and
    [next_seg.start - current.end <= merge_gap_s] on the rounded binary64
    difference, and rounds the binary64 difference for the [duration] of an
    event.

    The module [Binary64] embeds [_post_process_segments] and
    [process_audio] once more, with Python's [float] as the kernel's
    primitive binary64 type: [+], [-], [/], [<] and [<=] are the IEEE 754
    operations (round to nearest, ties to even; comparisons with a NaN are
    false).  What does not involve numbers (exceptions, calls, files, the
    result dictionaries of the initialization) is shared with the
    definitions above. *)

Set Warnings "-inexact-float".

Module Binary64.

Import PrimFloat SpecFloat FloatOps.

(** ** Numbers *)

(** [max(a, b)] and [min(a, b)]: the first argument unless the second is
    strictly greater (smaller).  The [0] in [max(0, ...)] is an [int]; it
    compares, subtracts and rounds as [0.0]. *)
Definition py_max (a b : float) : float := if (a <? b)%float then b else a.

Definition py_min (a b : float) : float := if (b <? a)%float then b else a.

(** An [int] as a [float]; exact up to [2^53] in absolute value. *)
Definition float_of_int (z : Z) : float :=
  match z with
  | Z0 => zero
  | Zpos _ => of_uint63 (Uint63Axioms.of_Z z)
  | Zneg p => (- of_uint63 (Uint63Axioms.of_Z (Zpos p)))%float
  end.

(** The rational a finite float denotes (0 for the others). *)
Definition exact (x : float) : Q :=
  match Prim2SF x with
  | S754_finite s m e =>
      let v := (inject_Z (Zpos m) * Qpower 2 e)%Q in
      if s then (- v)%Q else v
  | _ => 0%Q
  end.

(** [round(x, 3)] on a float: the multiple of [1/1000] nearest to the exact
    value of [x] (ties to the even multiple), then the float nearest to that
    multiple; the sign of [x] is kept.  Infinities and NaN round to
    themselves, and so does every float from [2^43] on, whose neighbours are
    more than [1/1000] away. *)
Definition round3 (x : float) : float :=
  if is_finite x && (abs x <? 8796093022208)%float
  then
    let k := round_half_even (exact (abs x) * 1000) in
    let r := (of_uint63 (Uint63Axioms.of_Z k) / 1000)%float in
    if get_sign x then (- r)%float else r
  else x.

(** ** Data *)

(** [pyannote.core.Segment]: the two fields the code reads. *)
Record Segment : Type := mkSegment { start : float; end_ : float }.

(** [self.config], with the keys of the default configuration. *)
Record Config : Type := mkConfig {
  model : string;
  confidence_threshold : float;
  min_duration_s : float;
  merge_gap_s : float;
  margin_s : float;
  onset : float;
  offset : float;
  min_duration_on : float;
  min_duration_off : float
}.

(** The dictionary [_load_config] falls back to. *)
Definition default_config : Config :=
  mkConfig "pyannote/voice-activity-detection"
           0.3 0.3 0.2 0.25 0.30 0.25 0.20 0.10.

(** ** [_post_process_segments] *)

(** The [if duration < self.config["min_duration_s"]: continue] test, on
    [duration = end - start]. *)
Definition too_short (cfg : Config) (segment : Segment) : bool :=
  (end_ segment - start segment <? min_duration_s cfg)%float.

(** The segment appended for a kept one: margins applied and clamped. *)
Definition with_margins (cfg : Config) (audio_duration : float)
    (segment : Segment) : Segment :=
  mkSegment (py_max 0 (start segment - margin_s cfg))
            (py_min audio_duration (end_ segment + margin_s cfg)).

(** The first loop, [for segment in segments], with [processed_segments] as
    the accumulator. *)
Fixpoint filter_pad_loop (cfg : Config) (audio_duration : float)
    (segments processed_segments : list Segment) : list Segment :=
  match segments with
  | [] => processed_segments
  | segment :: rest =>
      if too_short cfg segment
      then filter_pad_loop cfg audio_duration rest processed_segments
      else filter_pad_loop cfg audio_duration rest
             (processed_segments ++ [with_margins cfg audio_duration segment])
  end.

(** The test of the merge loop:
    [next_seg.start - current.end <= self.config["merge_gap_s"]]. *)
Definition close_enough (cfg : Config) (current next_seg : Segment) : bool :=
  (start next_seg - end_ current <=? merge_gap_s cfg)%float.

(** The second loop, [for next_seg in processed_segments[1:]], with [merged]
    and [current] as its state. *)
Fixpoint merge_loop (cfg : Config) (rest merged : list Segment)
    (current : Segment) : list Segment * Segment :=
  match rest with
  | [] => (merged, current)
  | next_seg :: rest' =>
      if close_enough cfg current next_seg
      then merge_loop cfg rest' merged
             (mkSegment (start current) (end_ next_seg))
      else merge_loop cfg rest' (merged ++ [current]) next_seg
  end.

(** The merge block: entered when the list is not empty and
    [merge_gap_s > 0]. *)
Definition merge_block (cfg : Config) (processed_segments : list Segment)
    : list Segment :=
  match processed_segments with
  | [] => processed_segments
  | first :: rest =>
      if (0 <? merge_gap_s cfg)%float
      then let (merged, current) := merge_loop cfg rest [] first in
           merged ++ [current]
      else processed_segments
  end.

(** [VADProcessor._post_process_segments].  The configuration holds a
    number under each key and the segments hold numbers, so nothing in the
    body raises and the [except] branch (which returns the empty list) is
    not reached. *)
Definition _post_process_segments (cfg : Config) (segments : list Segment)
    (audio_duration : float) : list Segment :=
  merge_block cfg (filter_pad_loop cfg audio_duration segments []).

(** ** The outside world *)

(** What [self.pipeline(audio_path)] may give back. *)
Inductive VadResult : Type :=
| Annotation (timeline : list Segment)   (* has [get_timeline] *)
| SpeechDict (timeline : list Segment)   (* a dict with key ["speech"] *)
| OtherShape.

(** The collaborators the code calls, as functions of their arguments.
    [suffix], [stem] and [str_lower] are [Path(p).suffix], [Path(p).stem]
    and [str.lower]. *)
Record Env : Type := mkEnv {
  hf_hub_download : string -> string -> res string;
  from_pretrained : string -> string -> res (option Pipeline);
  to_device : Pipeline -> res Pipeline;
  ffmpeg : string -> string -> res FfmpegRun;
  sha256_file : string -> res string;
  sf_read : string -> res (Z * Z);          (* [len(waveform)], [sample_rate] *)
  infer : Pipeline -> string -> res VadResult;
  ffmpeg_installed : bool;
  torch_version : string;
  torchaudio_version : string;
  time : list Call -> float;                (* [time.time()] after these calls *)
  suffix : string -> string;
  stem : string -> string;
  str_lower : string -> string
}.

(** ** The orchestrator's state *)

Record VADProcessor : Type := mkVADProcessor {
  config : Config;
  model_id : string;
  token : option string;
  pipeline : option Pipeline;
  device_str : string;
  initialization_error : option string
}.

(** The object, the scratch files on disk, and the calls made so far. *)
Record Machine : Type := mkMachine {
  self : VADProcessor;
  files : list string;
  calls : list Call
}.

Definition M (A : Type) : Type := Machine -> res A * Machine.

Definition ret {A : Type} (a : A) : M A := fun m => (Ok a, m).

Definition raise {A : Type} (e : Exn) : M A := fun m => (Raise e, m).

Definition bind {A B : Type} (c : M A) (k : A -> M B) : M B :=
  fun m =>
    match c m with
    | (Ok a, m') => k a m'
    | (Raise e, m') => (Raise e, m')
    end.

(** [try: body except Exception as e: handler e]; what [body] did to the
    machine before it raised stays done. *)
Definition try_except {A : Type} (body : M A) (handler : Exn -> M A) : M A :=
  fun m =>
    match body m with
    | (Ok a, m') => (Ok a, m')
    | (Raise e, m') => handler e m'
    end.

Declare Scope b64_scope.
Delimit Scope b64_scope with b64.
Notation "x <- c ;; k" := (bind c (fun x => k))
  (at level 61, c at next level, right associativity) : b64_scope.
Notation "c ;;; k" := (bind c (fun _ => k))
  (at level 61, right associativity) : b64_scope.
Local Open Scope b64_scope.

Definition lift {A : Type} (r : res A) : M A := fun m => (r, m).

Definition get_self : M VADProcessor := fun m => (Ok (self m), m).

Definition get_files : M (list string) := fun m => (Ok (files m), m).

Definition get_calls : M (list Call) := fun m => (Ok (calls m), m).

Definition call (c : Call) : M unit :=
  fun m => (Ok tt, mkMachine (self m) (files m) (calls m ++ [c])).

Definition set_pipeline (p : option Pipeline) : M unit :=
  fun m =>
    let s := self m in
    (Ok tt,
     mkMachine (mkVADProcessor (config s) (model_id s) (token s) p
                  (device_str s) (initialization_error s))
               (files m) (calls m)).

Definition set_initialization_error (e : option string) : M unit :=
  fun m =>
    let s := self m in
    (Ok tt,
     mkMachine (mkVADProcessor (config s) (model_id s) (token s) (pipeline s)
                  (device_str s) e)
               (files m) (calls m)).

Definition set_files (fs : list string) : M unit :=
  fun m => (Ok tt, mkMachine (self m) fs (calls m)).

(** ** [TokenManager.check_model_access] *)

Definition check_model_access (env : Env) (model_id token : string)
    : M AccessStatus :=
  call (HubDownload model_id token) ;;;
  match hf_hub_download env model_id token with
  | Ok path =>
      ret (mkAccessStatus true "Accès au modèle confirmé" None (Some path))
  | Raise e =>
      let error_msg := exn_msg e in
      if contains "401" error_msg || contains "Unauthorized" error_msg then
        ret (mkAccessStatus false "Token invalide ou expiré"
               (Some "Vérifiez que votre token HF est valide et non expiré")
               None)
      else if contains "403" error_msg || contains "Forbidden" error_msg then
        ret (mkAccessStatus false "Conditions d'utilisation non acceptées"
               (Some (String.append
                        "Vous devez accepter les conditions d'utilisation pour "
                        (String.append model_id " sur HuggingFace")))
               None)
      else if contains "404" error_msg || contains "Not Found" error_msg then
        ret (mkAccessStatus false "Modèle non trouvé"
               (Some (String.append "Le modèle "
                        (String.append model_id
                           " n'existe pas ou n'est pas accessible")))
               None)
      else
        ret (mkAccessStatus false (String.append "Erreur d'accès: " error_msg)
               (Some "Vérifiez votre connexion réseau et les permissions")
               None)
  end.

(** ** [VADProcessor.initialize_pipeline] *)

Definition initialize_pipeline (env : Env) (hf_token : option string)
    : M InitResult :=
  try_except
    (s <- get_self ;;
     let token := py_or hf_token (token s) in
     match token with
     | Some (String _ _ as tok) =>
         access_status <- check_model_access env (model_id s) tok ;;
         if negb (success access_status)
         then ret (AccessDenied access_status)
         else
           loaded <- (call (FromPretrained (model_id s) tok) ;;;
                      lift (from_pretrained env (model_id s) tok)) ;;
           set_pipeline loaded ;;;
           moved <- match loaded with
                    | Some p => call (ToDevice p) ;;; lift (to_device env p)
                    | None => raise NoneType_has_no_to
                    end ;;
           set_pipeline (Some moved) ;;;
           set_initialization_error None ;;;
           ret (Initialized access_status)
     | _ => ret MissingToken
     end)
    (fun e =>
       set_initialization_error
         (Some (String.append "Erreur initialisation pipeline: " (exn_msg e))) ;;;
       ret (InitFailed e)).

(** ** [VADProcessor.check_prerequisites] *)

Definition check_prerequisites (env : Env) : M Health :=
  s <- get_self ;;
  call FfmpegVersion ;;;
  ret (mkHealth (torch_version env) (torchaudio_version env) (device_str s)
         (ffmpeg_installed env) true (truthy (token s))).

(** ** [VADProcessor._extract_audio_from_video] *)

(** [os.makedirs(".tmp", exist_ok=True)] is taken to succeed.  The run of
    [ffmpeg] may raise (no such program), end with a non-zero return code,
    and in either of the last two cases may or may not have written the
    output file. *)
Definition _extract_audio_from_video (env : Env) (video_path : string)
    : M string :=
  let video_name := stem env video_path in
  let audio_path :=
    String.append ".tmp/" (String.append video_name ".wav") in
  call (Ffmpeg video_path audio_path) ;;;
  result <- lift (ffmpeg env video_path audio_path) ;;
  fs <- get_files ;;
  (if output_written result then set_files (audio_path :: fs) else ret tt) ;;;
  if negb (returncode result =? 0)%Z
  then raise (mkExn "Exception"
                (String.append "ffmpeg error: " (stderr result)))
  else ret audio_path.

(** ** [VADProcessor._get_file_hash] *)

Definition _get_file_hash (env : Env) (file_path : string) : M string :=
  call (HashFile file_path) ;;;
  lift (sha256_file env file_path).

(** ** [VADProcessor.process_audio] *)

(** One entry of ["events"]. *)
Record SpeechEvent : Type := mkSpeechEvent {
  ev_type : string;
  ev_start : float;
  ev_end : float;
  ev_confidence : option float;
  ev_duration : float
}.

(** The ["metadata"] dictionary. *)
Record Metadata : Type := mkMetadata {
  source : string;
  input_type : string;
  duration_s : float;
  profile : string;
  model_used : string;
  device : string;
  processing_time_s : float;
  rtf : float;
  segments_count : nat;
  config_used : Config
}.

(** The three dictionaries [process_audio] returns. *)
Inductive ProcessingResult : Type :=
| NotReady (error : string) (health : Health)
| Succeeded (metadata : Metadata) (events : list SpeechEvent)
| Failed (error error_type : string).

(** The dictionary appended to [final_segments] for one segment:
    [round(segment.start, 3)], [round(segment.end, 3)] and
    [round(segment.end - segment.start, 3)]. *)
Definition speech_event (segment : Segment) : SpeechEvent :=
  mkSpeechEvent "speech"
    (round3 (start segment))
    (round3 (end_ segment))
    None
    (round3 (end_ segment - start segment)).

(** [save_results] is entered with the results and the source path; it
    swallows every error and [process_audio] does not use what it returns.
    What it writes under [reports/] is not followed. *)
Definition save_results (results : ProcessingResult) (source_file : string)
    : M unit :=
  call (WriteReport source_file).

(** The segments read from the inference result (lines 287-302). *)
Definition timeline_segments (vad_result : VadResult) : list Segment :=
  match vad_result with
  | Annotation timeline => timeline
  | SpeechDict timeline => timeline
  | OtherShape => []
  end.

(** The [try] body from the file-type test on (lines 259-350).
    [len(waveform) / sample_rate] divides two integers, both taken below
    [2^53]: the quotient is the float nearest to the exact one.  A loaded
    pipeline object counts as true in [if not self.pipeline], and
    [os.remove] of a file that [os.path.exists] has just found is taken to
    succeed. *)
Definition process_steps (env : Env) (file_path : string) (start_time : float)
    : M ProcessingResult :=
  let file_ext := str_lower env (suffix env file_path) in
  let is_video := existsb (String.eqb file_ext) video_extensions in
  audio_path <- (if is_video
                 then _extract_audio_from_video env file_path
                 else ret file_path) ;;
  let input_type := if is_video then "video" else "audio" in
  file_hash <- _get_file_hash env file_path ;;
  read <- (call (SfRead audio_path) ;;; lift (sf_read env audio_path)) ;;
  let (waveform_len, sample_rate) := (read : Z * Z) in
  if (sample_rate =? 0)%Z then raise division_by_zero else
  let audio_duration :=
    (float_of_int waveform_len / float_of_int sample_rate)%float in
  s <- get_self ;;
  vad_result <- match pipeline s with
                | Some p => call (Infer p audio_path) ;;;
                            lift (infer env p audio_path)
                | None => raise NoneType_not_callable
                end ;;
  let segments := timeline_segments vad_result in
  let processed_segments :=
    _post_process_segments (config s) segments audio_duration in
  let final_segments := map speech_event processed_segments in
  now <- get_calls ;;
  let processing_time := (time env now - start_time)%float in
  let rtf := if (0 <? audio_duration)%float
             then (processing_time / audio_duration)%float else 0%float in
  fs <- get_files ;;
  (if is_video && existsb (String.eqb audio_path) fs
   then call (OsRemove audio_path) ;;;
        set_files (List.remove string_dec audio_path fs)
   else ret tt) ;;;
  let results :=
    Succeeded
      (mkMetadata file_path input_type (round3 audio_duration) "vad"
         (model_id s) (device_str s) (round3 processing_time) (round3 rtf)
         (List.length final_segments) (config s))
      final_segments in
  save_results results file_path ;;;
  ret results.

Definition process_audio (env : Env) (file_path : string)
    : M ProcessingResult :=
  before <- get_calls ;;
  let start_time := time env before in
  try_except
    (s <- get_self ;;
     match pipeline s with
     | Some _ => process_steps env file_path start_time
     | None =>
         init <- initialize_pipeline env None ;;
         if negb (dict_truthy (init_keys init))
         then
           s' <- get_self ;;
           health <- check_prerequisites env ;;
           ret (NotReady (error_or_default (initialization_error s')) health)
         else process_steps env file_path start_time
     end)
    (fun e => ret (Failed (exn_msg e) (exn_type e))).

(** ** Auxiliary definitions for the properties *)

(** The intervals that pass the duration filter, padded: what the first
    loop hands to the merge. *)
Definition kept_and_padded (cfg : Config) (D : float)
    (segments : list Segment) : list Segment :=
  map (with_margins cfg D) (filter (fun s => negb (too_short cfg s)) segments).

(** The file-type test of [process_audio]. *)
Definition is_video_path (env : Env) (file_path : string) : bool :=
  existsb (String.eqb (str_lower env (suffix env file_path))) video_extensions.

(** The object with its [pipeline] attribute replaced. *)
Definition with_pipeline (s : VADProcessor) (p : option Pipeline)
    : VADProcessor :=
  mkVADProcessor (config s) (model_id s) (token s) p (device_str s)
    (initialization_error s).

(** The object right after [__init__], for a given resolved token. *)
Definition new_processor (tok : option string) : VADProcessor :=
  mkVADProcessor default_config "pyannote/voice-activity-detection" tok None
    "cpu" None.

(** An outside world in which every collaborator succeeds: a recording of
    96040 frames at 16 kHz with five speech intervals. *)
Definition healthy_env : Env :=
  mkEnv (fun _ _ => Ok "config.yaml")
        (fun _ _ => Ok (Some 1%nat))
        (fun p => Ok p)
        (fun _ _ => Ok (mkFfmpegRun 0 EmptyString true))
        (fun _ => Ok "e3b0c442")
        (fun _ => Ok (96040, 16000)%Z)
        (fun _ _ => Ok (Annotation [mkSegment 0.05 0.35; mkSegment 1.0 1.8;
                                    mkSegment 2.5 3.5; mkSegment 5.2 5.4;
                                    mkSegment 5.9 6.0]))
        true "2.1.0" "2.1.0"
        (fun cs => float_of_int (Z.of_nat (List.length cs)))
        path_suffix path_stem lower.

(** The same world, but the engine hears three short bursts only. *)
Definition quiet_env : Env :=
  mkEnv (hf_hub_download healthy_env) (from_pretrained healthy_env)
        (to_device healthy_env) (ffmpeg healthy_env)
        (sha256_file healthy_env) (sf_read healthy_env)
        (fun _ _ => Ok (Annotation [mkSegment 0.5 0.6; mkSegment 2.0 2.25;
                                    mkSegment 4.1 4.3]))
        true "2.1.0" "2.1.0" (time healthy_env)
        path_suffix path_stem lower.

(** A computation that leaves the observation [f] of the machine alone. *)
Definition preserves {A X : Type} (f : Machine -> X) (c : M A) : Prop :=
  forall m r m1, c m = (r, m1) -> f m1 = f m.

(** The attributes of the object that are fixed at construction. *)
Definition fixed_attributes (m : Machine)
    : Config * string * option string * string :=
  (config (self m), model_id (self m), token (self m), device_str (self m)).

End Binary64.

(** * Properties *)

(** ** Comparisons *)

Lemma Qlt_bool_iff (x y : Q) : Qlt_bool x y = true <-> x < y.
Proof.
  unfold Qlt_bool. rewrite negb_true_iff.
  destruct (Qle_bool y x) eqn:E.
  - apply Qle_bool_iff in E. split; [discriminate | lra].
  - split; [intros _ | reflexivity].
    destruct (Qlt_le_dec x y) as [H | H]; [exact H |].
    apply Qle_bool_iff in H. congruence.
Qed.

Lemma Qlt_bool_false_iff (x y : Q) : Qlt_bool x y = false <-> y <= x.
Proof.
  destruct (Qlt_bool x y) eqn:E.
  - apply Qlt_bool_iff in E. split; [discriminate | lra].
  - split; [intros _ | reflexivity].
    destruct (Qlt_le_dec x y) as [H | H]; [| exact H].
    apply Qlt_bool_iff in H. congruence.
Qed.

Lemma Qle_bool_false_iff (x y : Q) : Qle_bool x y = false <-> y < x.
Proof.
  destruct (Qle_bool x y) eqn:E.
  - apply Qle_bool_iff in E. split; [discriminate | lra].
  - split; [intros _ | reflexivity].
    destruct (Qlt_le_dec y x) as [H | H]; [exact H |].
    apply Qle_bool_iff in H. congruence.
Qed.

Lemma py_max_spec (a b : Q) :
  (a < b /\ py_max a b = b) \/ (b <= a /\ py_max a b = a).
Proof.
  unfold py_max. destruct (Qlt_bool a b) eqn:E.
  - left. apply Qlt_bool_iff in E. auto.
  - right. apply Qlt_bool_false_iff in E. auto.
Qed.

Lemma py_min_spec (a b : Q) :
  (b < a /\ py_min a b = b) \/ (a <= b /\ py_min a b = a).
Proof.
  unfold py_min. destruct (Qlt_bool b a) eqn:E.
  - left. apply Qlt_bool_iff in E. auto.
  - right. apply Qlt_bool_false_iff in E. auto.
Qed.



Lemma too_short_iff (cfg : Config) (s : Segment) :
  too_short cfg s = true <-> end_ s - start s < min_duration_s cfg.
Proof. apply Qlt_bool_iff. Qed.

Lemma too_short_false_iff (cfg : Config) (s : Segment) :
  too_short cfg s = false <-> min_duration_s cfg <= end_ s - start s.
Proof. apply Qlt_bool_false_iff. Qed.

Lemma close_enough_iff (cfg : Config) (a b : Segment) :
  close_enough cfg a b = true <-> start b - end_ a <= merge_gap_s cfg.
Proof. apply Qle_bool_iff. Qed.

Lemma close_enough_false_iff (cfg : Config) (a b : Segment) :
  close_enough cfg a b = false <-> merge_gap_s cfg < start b - end_ a.
Proof. apply Qle_bool_false_iff. Qed.

(** ** The two loops as list functions *)

Lemma filter_pad_loop_spec (cfg : Config) (D : Q) (segments : list Segment) :
  forall processed,
    filter_pad_loop cfg D segments processed
    = processed ++ map (with_margins cfg D)
                     (filter (fun s => negb (too_short cfg s)) segments).
Proof.
  induction segments as [| s rest IH]; intros processed; simpl.
  - now rewrite app_nil_r.
  - destruct (too_short cfg s); simpl.
    + apply IH.
    + rewrite IH, <- app_assoc. reflexivity.
Qed.

Lemma merge_loop_from (cfg : Config) (rest : list Segment) :
  forall merged current,
    (let (m, c) := merge_loop cfg rest merged current in m ++ [c])
    = merged ++ merge_from cfg current rest.
Proof.
  induction rest as [| n rest IH]; intros merged current; simpl.
  - reflexivity.
  - destruct (close_enough cfg current n).
    + apply IH.
    + rewrite IH, <- app_assoc. reflexivity.
Qed.

Lemma merge_block_from (cfg : Config) (first : Segment) (rest : list Segment) :
  0 < merge_gap_s cfg ->
  merge_block cfg (first :: rest) = merge_from cfg first rest.
Proof.
  intros Hgap. unfold merge_block.
  apply Qlt_bool_iff in Hgap. rewrite Hgap.
  exact (merge_loop_from cfg rest [] first).
Qed.

Lemma merge_block_skipped (cfg : Config) (l : list Segment) :
  merge_gap_s cfg <= 0 -> merge_block cfg l = l.
Proof.
  intros Hgap. destruct l as [| first rest]; [reflexivity |].
  unfold merge_block. apply Qlt_bool_false_iff in Hgap. now rewrite Hgap.
Qed.

Lemma merge_loop_app (cfg : Config) (r1 r2 : list Segment) :
  forall merged current,
    merge_loop cfg (r1 ++ r2) merged current
    = (let (m, c) := merge_loop cfg r1 merged current in merge_loop cfg r2 m c).
Proof.
  induction r1 as [| n r1 IH]; intros merged current; simpl.
  - reflexivity.
  - destruct (close_enough cfg current n); apply IH.
Qed.

Lemma merge_from_cons (cfg : Config) (rest : list Segment) :
  forall current,
    exists e tl,
      merge_from cfg current rest = mkSegment (start current) e :: tl.
Proof.
  induction rest as [| n rest IH]; intros current; simpl.
  - exists (end_ current), []. now destruct current.
  - destruct (close_enough cfg current n).
    + apply (IH (mkSegment (start current) (end_ n))).
    + exists (end_ current), (merge_from cfg n rest). now destruct current.
Qed.

Lemma merge_from_Forall (cfg : Config) (P : Segment -> Prop)
    (Hglue : forall a b, P a -> P b -> P (mkSegment (start a) (end_ b))) :
  forall rest current,
    P current -> Forall P rest -> Forall P (merge_from cfg current rest).
Proof.
  induction rest as [| n rest IH]; intros current Hc Hr; simpl.
  - auto.
  - inversion Hr as [| ? ? Hn Hrest]; subst.
    destruct (close_enough cfg current n).
    + apply IH; auto.
    + constructor; auto.
Qed.

(** ** Margin expansion *)

Lemma with_margins_bounds (cfg : Config) (D : Q) (s : Segment) :
  0 <= start (with_margins cfg D s) /\ end_ (with_margins cfg D s) <= D.
Proof.
  unfold with_margins; simpl. split.
  - destruct (py_max_spec 0 (start s - margin_s cfg)) as [[H ->] | [H ->]]; lra.
  - destruct (py_min_spec D (end_ s + margin_s cfg)) as [[H ->] | [H ->]]; lra.
Qed.

Lemma merge_block_Forall (cfg : Config) (P : Segment -> Prop)
    (Hglue : forall a b, P a -> P b -> P (mkSegment (start a) (end_ b)))
    (l : list Segment) :
  Forall P l -> Forall P (merge_block cfg l).
Proof.
  intros Hl. destruct l as [| first rest]; [exact Hl |].
  unfold merge_block. destruct (Qlt_bool 0 (merge_gap_s cfg)); [| exact Hl].
  rewrite (merge_loop_from cfg rest [] first). simpl.
  inversion Hl; subst. now apply merge_from_Forall.
Qed.


(** ** [merge_gap_s = 0] *)




(** ** Order and overlap of the output *)

Lemma sorted_by_start_pairwise (l : list Segment) :
  sorted_by_start l = true <-> pairwise start_le l.
Proof.
  induction l as [| a [| b t] IH].
  - simpl. tauto.
  - simpl. split; auto.
  - change (sorted_by_start (a :: b :: t))
      with (Qle_bool (start a) (start b) && sorted_by_start (b :: t)).
    rewrite andb_true_iff, IH, Qle_bool_iff.
    change (pairwise start_le (a :: b :: t))
      with (Forall (start_le a) (b :: t) /\ pairwise start_le (b :: t)).
    split.
    + intros [Hab Hbt]. split; [| exact Hbt].
      constructor; [exact Hab |].
      destruct Hbt as [Hb _]. revert Hb. apply Forall_impl.
      unfold start_le. intros c Hc. lra.
    + intros [Ha Hbt]. split; [| exact Hbt]. now inversion Ha.
Qed.

Lemma pairwise_map_filter {A B : Type} (R : A -> A -> Prop)
    (S : B -> B -> Prop) (f : A -> B) (keep : A -> bool)
    (Hf : forall a b, R a b -> S (f a) (f b)) (l : list A) :
  pairwise R l -> pairwise S (map f (filter keep l)).
Proof.
  induction l as [| a t IH]; simpl; [auto |].
  intros [Ha Ht]. destruct (keep a); simpl; [| auto].
  split; [| auto].
  apply Forall_forall. intros y Hy.
  apply in_map_iff in Hy. destruct Hy as [x [<- Hx]].
  apply filter_In in Hx. destruct Hx as [Hx _].
  apply Hf. rewrite Forall_forall in Ha. auto.
Qed.

Lemma with_margins_start_le (cfg : Config) (D : Q) (a b : Segment) :
  start_le a b -> start_le (with_margins cfg D a) (with_margins cfg D b).
Proof.
  unfold start_le, with_margins; simpl. intros H.
  destruct (py_max_spec 0 (start a - margin_s cfg)) as [[Ha ->] | [Ha ->]];
  destruct (py_max_spec 0 (start b - margin_s cfg)) as [[Hb ->] | [Hb ->]];
  lra.
Qed.

(** What the merge walk gives on a start-ascending list: later intervals
    start no earlier, and begin strictly after every earlier one has
    ended. *)
Lemma merge_from_separated (cfg : Config) :
  0 < merge_gap_s cfg ->
  forall rest current,
    Forall (start_le current) rest ->
    pairwise start_le rest ->
    Forall (start_le current) (merge_from cfg current rest)
    /\ pairwise (fun a b => start_le a b /\ before a b)
         (merge_from cfg current rest).
Proof.
  intros Hgap.
  induction rest as [| n rest IH]; intros current Hc Hr; simpl.
  - repeat split; auto. constructor; [unfold start_le; lra | constructor].
  - inversion Hc as [| ? ? Hcn Hcrest]; subst. destruct Hr as [Hn Hrest].
    destruct (close_enough cfg current n) eqn:E.
    + apply (IH (mkSegment (start current) (end_ n))); auto.
    + apply close_enough_false_iff in E.
      destruct (IH n Hn Hrest) as [IH1 IH2].
      assert (Hlater : Forall (fun b => start_le current b /\ before current b)
                         (merge_from cfg n rest)).
      { revert IH1. apply Forall_impl. unfold start_le, before in *.
        intros b Hb. lra. }
      split.
      * constructor; [unfold start_le; lra |].
        revert Hlater. apply Forall_impl. tauto.
      * split; assumption.
Qed.

Lemma separated_is_sorted_and_disjoint (l : list Segment) :
  pairwise (fun a b => start_le a b /\ before a b) l ->
  sorted_by_start l = true /\ non_overlapping l = true.
Proof.
  intros H. split.
  - apply sorted_by_start_pairwise.
    induction l as [| a t IH]; simpl in *; [auto |].
    destruct H as [Ha Ht]. split; [| auto].
    revert Ha. apply Forall_impl. tauto.
  - induction l as [| a t IH]; simpl in *; [auto |].
    destruct H as [Ha Ht]. apply andb_true_iff. split; [| auto].
    apply forallb_forall. intros b Hb.
    rewrite Forall_forall in Ha. destruct (Ha b Hb) as [_ Hab].
    unfold overlaps. apply negb_true_iff, andb_false_iff. right.
    apply Qlt_bool_false_iff. unfold before in Hab. lra.
Qed.

(** The claim as stated fails in two ways.  With [merge_gap_s = 0] the
    overlapping intervals [(0, 2)] and [(1, 3)] are returned as they are;
    with a positive gap and input that is not in start order, [(5, 6)],
    [(0, 1)], [(2, 3)] (each with [start < end]) come out as [(5, 1)],
    [(2, 3)], which is not ascending. *)
Lemma output_not_always_sorted_and_disjoint :
  non_overlapping
    (_post_process_segments (bare_config 0)
       [mkSegment 0 2; mkSegment 1 3] 10) = false
  /\ sorted_by_start
       (_post_process_segments (bare_config (1 # 4))
          [mkSegment 5 6; mkSegment 0 1; mkSegment 2 3] 10) = false.
Proof. split; reflexivity. Qed.

(** C3, amended.  For every input list that is ascending by start, every
    [audio_duration] and every configuration, the list returned by the
    post-processor is ascending by start; when moreover [merge_gap_s > 0],
    no two of its intervals overlap. *)
Theorem output_sorted_and_disjoint (cfg : Config) (segments : list Segment)
    (D : Q) :
  sorted_by_start segments = true ->
  sorted_by_start (_post_process_segments cfg segments D) = true
  /\ (0 < merge_gap_s cfg ->
      non_overlapping (_post_process_segments cfg segments D) = true).
Proof.
  intros Hsorted.
  unfold _post_process_segments. rewrite filter_pad_loop_spec. simpl.
  apply sorted_by_start_pairwise in Hsorted.
  pose proof (pairwise_map_filter start_le start_le (with_margins cfg D)
                (fun s => negb (too_short cfg s))
                (with_margins_start_le cfg D) segments Hsorted) as Hp.
  destruct (Qlt_le_dec 0 (merge_gap_s cfg)) as [Hgap | Hgap].
  - cut (sorted_by_start
           (merge_block cfg
              (map (with_margins cfg D)
                 (filter (fun s => negb (too_short cfg s)) segments))) = true
         /\ non_overlapping
              (merge_block cfg
                 (map (with_margins cfg D)
                    (filter (fun s => negb (too_short cfg s)) segments)))
            = true); [tauto |].
    apply separated_is_sorted_and_disjoint.
    destruct (map (with_margins cfg D)
                (filter (fun s => negb (too_short cfg s)) segments))
      as [| first rest]; [exact I |].
    rewrite merge_block_from by exact Hgap.
    destruct Hp as [Hfirst Hrest].
    apply (merge_from_separated cfg Hgap rest first Hfirst Hrest).
  - rewrite merge_block_skipped by exact Hgap. split.
    + apply sorted_by_start_pairwise. exact Hp.
    + intros H. lra.
Qed.

Lemma output_sorted_and_disjoint_witness :
  sorted_by_start
    (_post_process_segments default_config
       [mkSegment 0 (1 # 2); mkSegment (6 # 10) 1; mkSegment 5 (54 # 10)] 6)
  = true
  /\ non_overlapping
       (_post_process_segments default_config
          [mkSegment 0 (1 # 2); mkSegment (6 # 10) 1; mkSegment 5 (54 # 10)] 6)
     = true.
Proof.
  destruct (output_sorted_and_disjoint default_config
              [mkSegment 0 (1 # 2); mkSegment (6 # 10) 1;
               mkSegment 5 (54 # 10)]
              6 eq_refl) as [Hs Hd].
  split; [exact Hs | apply Hd; reflexivity].
Defined.

(** ** A second pass over the output *)

Lemma post_within_bounds (cfg : Config) (segments : list Segment) (D : Q) :
  within_bounds D (_post_process_segments cfg segments D).
Proof.
  unfold within_bounds, _post_process_segments. apply merge_block_Forall.
  - simpl. intros a b [Ha _] [_ Hb]. auto.
  - rewrite filter_pad_loop_spec. simpl. apply Forall_forall.
    intros p Hp. apply in_map_iff in Hp. destruct Hp as [s [<- _]].
    apply with_margins_bounds.
Qed.

Lemma with_margins_id (cfg : Config) (D : Q) (s : Segment) :
  margin_s cfg == 0 -> 0 <= start s -> end_ s <= D ->
  seg_eq (with_margins cfg D s) s.
Proof.
  intros Hm Hs He. unfold seg_eq, with_margins; simpl. split.
  - destruct (py_max_spec 0 (start s - margin_s cfg)) as [[H ->] | [H ->]]; lra.
  - destruct (py_min_spec D (end_ s + margin_s cfg)) as [[H ->] | [H ->]]; lra.
Qed.

Lemma merge_from_apart (cfg : Config) :
  forall rest current, chain (apart cfg) (merge_from cfg current rest).
Proof.
  induction rest as [| n rest IH]; intros current; simpl.
  - exact I.
  - destruct (close_enough cfg current n) eqn:E.
    + apply IH.
    + apply close_enough_false_iff in E.
      pose proof (IH n) as Hn.
      destruct (merge_from_cons cfg rest n) as [e [tl Heq]].
      rewrite Heq in Hn |- *. split; [| exact Hn].
      unfold apart. simpl. exact E.
Qed.

Lemma merge_from_long_enough (cfg : Config) :
  forall rest current,
    Forall (start_le current) rest ->
    pairwise start_le rest ->
    long_enough cfg current ->
    Forall (long_enough cfg) rest ->
    Forall (long_enough cfg) (merge_from cfg current rest).
Proof.
  induction rest as [| n rest IH]; intros current Hc Hr Hlc Hlr; simpl.
  - auto.
  - inversion Hc as [| ? ? Hcn Hcrest]; subst.
    inversion Hlr as [| ? ? Hln Hlrest]; subst.
    destruct Hr as [Hn Hrest].
    destruct (close_enough cfg current n).
    + apply IH; auto.
      unfold long_enough, start_le in *. simpl. lra.
    + constructor; auto.
Qed.

Lemma merge_from_fixed (cfg : Config) :
  forall rest current,
    chain (apart cfg) (current :: rest) ->
    merge_from cfg current rest = current :: rest.
Proof.
  induction rest as [| n rest IH]; intros current H; simpl.
  - reflexivity.
  - destruct H as [Hcn Hrest].
    apply close_enough_false_iff in Hcn. rewrite Hcn.
    f_equal. apply IH. exact Hrest.
Qed.

Lemma filter_all_kept {A : Type} (keep : A -> bool) (l : list A) :
  Forall (fun x => keep x = true) l -> filter keep l = l.
Proof.
  induction 1 as [| x l Hx _ IH]; simpl; [reflexivity |].
  rewrite Hx. now f_equal.
Qed.

Lemma chain_apart_map (cfg : Config) (f : Segment -> Segment)
    (l : list Segment) :
  Forall (fun s => seg_eq (f s) s) l ->
  chain (apart cfg) l -> chain (apart cfg) (map f l).
Proof.
  induction l as [| a [| b t] IH]; intros Hf Hc; simpl; auto.
  inversion Hf as [| ? ? Ha Hf']; subst.
  destruct Hc as [Hab Hc]. split.
  - inversion Hf' as [| ? ? Hb _]; subst.
    unfold apart, seg_eq in *. lra.
  - apply IH; assumption.
Qed.

(** A list that is within bounds, long enough and (when merging is on) has
    every gap above [merge_gap_s] comes back from the post-processor
    unchanged, provided there is no margin. *)
Lemma post_fixed_point (cfg : Config) (D : Q) (l : list Segment) :
  margin_s cfg == 0 ->
  within_bounds D l ->
  Forall (long_enough cfg) l ->
  (0 < merge_gap_s cfg -> chain (apart cfg) l) ->
  segs_eq (_post_process_segments cfg l D) l.
Proof.
  intros Hm Hb Hlong Hgaps.
  assert (Hid : Forall (fun s => seg_eq (with_margins cfg D s) s) l).
  { revert Hb. apply Forall_impl. intros s [Hs He].
    now apply with_margins_id. }
  assert (Hmap : segs_eq (map (with_margins cfg D) l) l).
  { clear -Hid. induction Hid; simpl; constructor; auto. }
  unfold _post_process_segments. rewrite filter_pad_loop_spec. simpl.
  rewrite filter_all_kept.
  2:{ revert Hlong. apply Forall_impl. intros s Hs.
      apply negb_true_iff, too_short_false_iff. exact Hs. }
  destruct (Qlt_le_dec 0 (merge_gap_s cfg)) as [Hgap | Hgap].
  - destruct l as [| a t]; [constructor |].
    simpl map. rewrite merge_block_from by exact Hgap.
    rewrite merge_from_fixed; [exact Hmap |].
    apply (chain_apart_map cfg (with_margins cfg D) (a :: t) Hid).
    auto.
  - rewrite merge_block_skipped by exact Hgap. exact Hmap.
Qed.

Lemma seg_eq_dec_false (a b : Segment) :
  Qeq_bool (start a) (start b) = false -> ~ seg_eq a b.
Proof.
  intros H [Hs _]. apply Qeq_bool_neq in H. contradiction.
Qed.

(** Three ways in which a second pass changes the output.  With a margin
    it pads again: [(1, 2)] becomes [(0.75, 2.25)] and then [(0.5, 2.5)].
    Without margin, an interval reaching past [audio_duration] is clamped by
    the first pass and may then be too short for the second:
    [(9.875, 10.5)] becomes [(9.875, 10)] and then nothing.  Without margin,
    input that is not in start order can merge into an interval with
    [end < start], which the second pass drops: [(5, 6)], [(0, 1)] become
    [(5, 1)] and then nothing. *)
Lemma second_pass_changes_the_output :
  (let cfg := mkConfig "m" 0 (1 # 4) (1 # 4) (1 # 4) 0 0 0 0 in
   let once := _post_process_segments cfg [mkSegment 1 2] 10 in
   ~ segs_eq (_post_process_segments cfg once 10) once)
  /\ (let cfg := mkConfig "m" 0 (1 # 4) (1 # 4) 0 0 0 0 0 in
      let once := _post_process_segments cfg [mkSegment (79 # 8) (21 # 2)] 10 in
      ~ segs_eq (_post_process_segments cfg once 10) once)
  /\ (let cfg := mkConfig "m" 0 (1 # 4) (1 # 4) 0 0 0 0 0 in
      let once :=
        _post_process_segments cfg [mkSegment 5 6; mkSegment 0 1] 10 in
      ~ segs_eq (_post_process_segments cfg once 10) once).
Proof.
  split; [| split].
  - intros cfg once H. inversion H as [| a b ? ? Hab _]; subst.
    revert Hab. apply seg_eq_dec_false. reflexivity.
  - intros cfg once H. inversion H.
  - intros cfg once H. inversion H.
Qed.

(** C4, amended.  When [margin_s] is 0 and the raw intervals are ascending
    by start and lie within [[0, audio_duration]], running the
    post-processor on its own output, with the same configuration and
    [audio_duration], gives that output again. *)
Theorem post_process_idempotent_without_margin (cfg : Config)
    (segments : list Segment) (D : Q) :
  margin_s cfg == 0 ->
  sorted_by_start segments = true ->
  within_bounds D segments ->
  segs_eq
    (_post_process_segments cfg (_post_process_segments cfg segments D) D)
    (_post_process_segments cfg segments D).
Proof.
  intros Hm Hsorted Hb.
  apply post_fixed_point.
  - exact Hm.
  - apply post_within_bounds.
  - apply sorted_by_start_pairwise in Hsorted.
    unfold _post_process_segments. rewrite filter_pad_loop_spec. simpl.
    pose proof (pairwise_map_filter start_le start_le (with_margins cfg D)
                  (fun s => negb (too_short cfg s))
                  (with_margins_start_le cfg D) segments Hsorted) as Hp.
    assert (Hl : Forall (long_enough cfg)
                   (map (with_margins cfg D)
                      (filter (fun s => negb (too_short cfg s)) segments))).
    { apply Forall_forall. intros p Hp'.
      apply in_map_iff in Hp'. destruct Hp' as [s [<- Hs]].
      apply filter_In in Hs. destruct Hs as [Hin Hkeep].
      apply negb_true_iff, too_short_false_iff in Hkeep.
      unfold within_bounds in Hb. rewrite Forall_forall in Hb.
      destruct (Hb s Hin) as [H0 HD].
      destruct (with_margins_id cfg D s Hm H0 HD) as [Es Ee].
      unfold long_enough. lra. }
    destruct (map (with_margins cfg D)
                (filter (fun s => negb (too_short cfg s)) segments))
      as [| first rest]; [constructor |].
    destruct (Qlt_le_dec 0 (merge_gap_s cfg)) as [Hgap | Hgap].
    + rewrite merge_block_from by exact Hgap.
      destruct Hp as [Hfirst Hrest]. inversion Hl; subst.
      now apply merge_from_long_enough.
    + rewrite merge_block_skipped by exact Hgap. exact Hl.
  - intros Hgap. unfold _post_process_segments.
    destruct (filter_pad_loop cfg D segments []) as [| first rest];
      [exact I |].
    rewrite merge_block_from by exact Hgap.
    apply merge_from_apart.
Qed.

Lemma post_process_idempotent_without_margin_witness :
  let cfg := mkConfig "m" 0 (1 # 4) (1 # 4) 0 0 0 0 0 in
  let raw := [mkSegment 0 (1 # 2); mkSegment (5 # 8) 1; mkSegment 5 (11 # 2)] in
  segs_eq
    (_post_process_segments cfg (_post_process_segments cfg raw 6) 6)
    (_post_process_segments cfg raw 6).
Proof.
  intros cfg raw.
  apply (post_process_idempotent_without_margin cfg raw 6).
  - reflexivity.
  - reflexivity.
  - unfold within_bounds, raw.
    repeat constructor; simpl; unfold Qle; simpl; lia.
Defined.

(** ** The orchestrator *)

Lemma bind_ok {A B : Type} (c : M A) (k : A -> M B) (m m' : Machine) (b : B) :
  bind c k m = (Ok b, m') ->
  exists a m1, c m = (Ok a, m1) /\ k a m1 = (Ok b, m').
Proof.
  unfold bind. destruct (c m) as [[a | e] m1]; intros H.
  - exists a, m1. auto.
  - discriminate.
Qed.

Lemma keeps_bind {A B : Type} (c : M A) (k : A -> M B) :
  keeps_config c -> (forall a, keeps_config (k a)) -> keeps_config (bind c k).
Proof.
  intros Hc Hk m r m2. unfold bind.
  destruct (c m) as [[a | e] m1] eqn:E; intros H.
  - rewrite (Hk a _ _ _ H). eapply Hc; eauto.
  - injection H as <- <-. eapply Hc; eauto.
Qed.

Lemma keeps_try {A : Type} (body : M A) (handler : Exn -> M A) :
  keeps_config body -> (forall e, keeps_config (handler e)) ->
  keeps_config (try_except body handler).
Proof.
  intros Hb Hh m r m2. unfold try_except.
  destruct (body m) as [[a | e] m1] eqn:E; intros H.
  - injection H as <- <-. eapply Hb; eauto.
  - rewrite (Hh e _ _ _ H). eapply Hb; eauto.
Qed.

Lemma keeps_pure {A : Type} (c : M A) :
  (forall m, snd (c m) = m) -> keeps_config c.
Proof.
  intros H m r m1 E. specialize (H m). rewrite E in H. simpl in H.
  now subst.
Qed.

Lemma keeps_update {A : Type} (c : M A) :
  (forall m, config (self (snd (c m))) = config (self m)) -> keeps_config c.
Proof.
  intros H m r m1 E. specialize (H m). now rewrite E in H.
Qed.

(** Discharges [keeps_config] goals by following the structure of the
    computation. *)
Ltac keeps :=
  repeat first
    [ apply keeps_bind; [| intros ?]
    | apply keeps_try; [| intros ?]
    | apply keeps_pure; reflexivity
    | apply keeps_update; reflexivity
    | match goal with
      | |- keeps_config (if ?b then _ else _) => destruct b
      | |- keeps_config (match ?x with _ => _ end) => destruct x
      | |- keeps_config (let (_, _) := ?x in _) => destruct x
      | |- keeps_config (let _ := _ in _) => cbv zeta
      end ].

Lemma keeps_check_model_access env model_id tok :
  keeps_config (check_model_access env model_id tok).
Proof. unfold check_model_access. keeps. Qed.

Lemma keeps_initialize_pipeline env hf_token :
  keeps_config (initialize_pipeline env hf_token).
Proof.
  unfold initialize_pipeline. keeps.
Qed.

Lemma keeps_extract env video_path :
  keeps_config (_extract_audio_from_video env video_path).
Proof. unfold _extract_audio_from_video. keeps. Qed.

Lemma keeps_hash env file_path : keeps_config (_get_file_hash env file_path).
Proof. unfold _get_file_hash. keeps. Qed.

Lemma keeps_process_prefix env file_path :
  keeps_config
    (if existsb (String.eqb (lower (path_suffix file_path))) video_extensions
     then _extract_audio_from_video env file_path
     else ret file_path).
Proof. destruct (existsb _ _); [apply keeps_extract | keeps]. Qed.

Lemma call_then_lift_ok {A : Type} (c : Call) (r : res A) (m m' : Machine)
    (a : A) :
  (call c ;;; lift r) m = (Ok a, m') -> r = Ok a.
Proof. unfold bind, call, lift. simpl. congruence. Qed.

Lemma keeps_call_then_lift {A : Type} (c : Call) (r : res A) :
  keeps_config (call c ;;; lift r).
Proof. keeps. Qed.

(** A run of the steps that returns at all returns the success dictionary,
    built from the decoder's and the engine's answers. *)
Lemma process_steps_ok env file_path start_time m r m' :
  process_steps env file_path start_time m = (Ok r, m') ->
  exists audio_path p waveform_len sample_rate vad_result md,
    sf_read env audio_path = Ok (waveform_len, sample_rate)
    /\ infer env p audio_path = Ok vad_result
    /\ let processed :=
         _post_process_segments (config (self m))
           (timeline_segments vad_result)
           (inject_Z waveform_len / inject_Z sample_rate) in
       r = Succeeded md (map speech_event processed)
       /\ segments_count md = List.length (map speech_event processed).
Proof.
  unfold process_steps. intros H.
  apply bind_ok in H. destruct H as [audio_path [m1 [H1 H]]].
  apply keeps_process_prefix in H1.
  apply bind_ok in H. destruct H as [file_hash [m2 [H2 H]]].
  apply keeps_hash in H2.
  apply bind_ok in H. destruct H as [[waveform_len sample_rate] [m3 [H3 H]]].
  pose proof (keeps_call_then_lift _ _ _ _ _ H3) as K3.
  apply call_then_lift_ok in H3.
  destruct (sample_rate =? 0)%Z; [discriminate |].
  apply bind_ok in H. destruct H as [s [m4 [H4 H]]].
  injection H4 as <- <-.
  apply bind_ok in H. destruct H as [vad_result [m5 [H5 H]]].
  destruct (pipeline (self m3)) as [p |]; [| discriminate].
  apply call_then_lift_ok in H5.
  apply bind_ok in H. destruct H as [now [m6 [_ H]]].
  apply bind_ok in H. destruct H as [fs [m7 [_ H]]].
  apply bind_ok in H. destruct H as [u [m8 [_ H]]].
  apply bind_ok in H. destruct H as [u' [m9 [_ H]]].
  injection H as <- _.
  rewrite <- H1, <- H2, <- K3.
  exists audio_path, p, waveform_len, sample_rate, vad_result.
  eexists. repeat split; assumption.
Qed.

(** The [NotReady] dictionary is never built: the dictionary that
    [initialize_pipeline] returns has keys, so [not] of it is false. *)
Lemma process_audio_never_reports_health env file_path m r m' :
  process_audio env file_path m = (Ok r, m') -> result_health r = None.
Proof.
  unfold process_audio. intros H.
  apply bind_ok in H. destruct H as [before0 [m0 [H0 H]]].
  injection H0 as <- <-.
  unfold try_except in H.
  match type of H with
  | context [match ?b ?x with _ => _ end] =>
      destruct (b x) as [[r1 | e] m1] eqn:E
  end.
  2:{ injection H as <- _. reflexivity. }
  injection H as -> ->.
  apply bind_ok in E. destruct E as [s [m2 [H2 E]]].
  injection H2 as <- <-.
  assert (Hsteps : exists t m3, process_steps env file_path t m3 = (Ok r, m')).
  { destruct (pipeline (self m)).
    - eauto.
    - apply bind_ok in E. destruct E as [init [m3 [_ E]]].
      destruct init; simpl in E; eauto. }
  destruct Hsteps as [t [m3 Hsteps]].
  apply process_steps_ok in Hsteps.
  destruct Hsteps as [? [? [? [? [? [? [_ [_ [-> _]]]]]]]]]. reflexivity.
Qed.

(** C1.  What the code does when initialization fails.  A processor with
    no token: the one initialization attempt returns the missing-token
    failure; [process_audio] then goes on to hash and decode the file, fails
    on calling the pipeline that is not there, and returns a failure
    dictionary with no health entry.  A processor whose token the hub
    refuses: the one attempt makes its access check and returns the failure,
    and [process_audio] goes on in the same way. *)
Theorem failed_initialization_falls_through :
  let m := mkMachine (new_processor None) [] [] in
  let m' := mkMachine (new_processor (Some "hf_token")) [] [] in
  fst (initialize_pipeline healthy_env None m) = Ok MissingToken
  /\ init_success MissingToken = false
  /\ fst (process_audio healthy_env "talk.wav" m)
     = Ok (Failed "'NoneType' object is not callable" "TypeError")
  /\ result_health (Failed "'NoneType' object is not callable" "TypeError")
     = None
  /\ calls (snd (process_audio healthy_env "talk.wav" m))
     = [HashFile "talk.wav"; SfRead "talk.wav"]
  /\ fst (process_audio expired_token_env "talk.wav" m')
     = Ok (Failed "'NoneType' object is not callable" "TypeError")
  /\ calls (snd (process_audio expired_token_env "talk.wav" m'))
     = [HubDownload "pyannote/voice-activity-detection" "hf_token";
        HashFile "talk.wav"; SfRead "talk.wav"].
Proof. repeat split; vm_compute; reflexivity. Qed.

(** C6.  What the code does with the scratch file.  On a video whose steps
    all succeed the extracted [.tmp/clip.wav] is removed; when the decoder
    or the engine raises after the extraction, [process_audio] returns the
    failure dictionary and [.tmp/clip.wav] is still there. *)
Theorem scratch_file_survives_a_failure :
  let m := mkMachine (with_pipeline (new_processor (Some "hf_token"))
                        (Some 1%nat)) [] [] in
  files (snd (process_audio healthy_env "clip.mp4" m)) = []
  /\ fst (process_audio undecodable_env "clip.mp4" m)
     = Ok (Failed "Format not recognised." "LibsndfileError")
  /\ files (snd (process_audio undecodable_env "clip.mp4" m))
     = [".tmp/clip.wav"]
  /\ fst (process_audio failing_inference_env "clip.mp4" m)
     = Ok (Failed "out of memory" "RuntimeError")
  /\ files (snd (process_audio failing_inference_env "clip.mp4" m))
     = [".tmp/clip.wav"].
Proof. repeat split; vm_compute; reflexivity. Qed.

(** From the initialized state, [initialize_pipeline] checks access, loads
    and moves the engine again; and when the hub refuses the token it
    returns a failure. *)
Lemma reinitialization_is_not_a_no_op :
  let m := mkMachine (with_pipeline (new_processor (Some "hf_token"))
                        (Some 1%nat)) [] [] in
  calls (snd (initialize_pipeline healthy_env None m))
  = [HubDownload "pyannote/voice-activity-detection" "hf_token";
     FromPretrained "pyannote/voice-activity-detection" "hf_token";
     ToDevice 1%nat]
  /\ fst (initialize_pipeline expired_token_env None m)
     = Ok (AccessDenied
             (mkAccessStatus false "Token invalide ou expiré"
                (Some "Vérifiez que votre token HF est valide et non expiré")
                None)).
Proof. split; vm_compute; reflexivity. Qed.

Ltac run_init :=
  unfold initialize_pipeline, check_model_access, try_except, bind, call,
    lift, ret, raise, get_self, set_pipeline, set_initialization_error,
    with_pipeline;
  simpl.

(** C2, amended.  [initialize_pipeline] does not look at [self.pipeline]:
    called in the initialized state it returns the same dictionary and makes
    the same outside calls as in the uninitialized state.  With a usable
    token it checks model access again, and it returns success only after
    the access check, the load of the engine and the move to the device
    have all been done again and have succeeded. *)
Theorem initialize_pipeline_runs_again (env : Env) (hf_token : option string)
    (s : VADProcessor) (fs : list string) (cs : list Call) (p : Pipeline) :
  let fresh := mkMachine (with_pipeline s None) fs cs in
  let loaded := mkMachine (with_pipeline s (Some p)) fs cs in
  fst (initialize_pipeline env hf_token loaded)
  = fst (initialize_pipeline env hf_token fresh)
  /\ calls (snd (initialize_pipeline env hf_token loaded))
     = calls (snd (initialize_pipeline env hf_token fresh))
  /\ (forall tok,
         py_or hf_token (token s) = Some tok -> tok <> EmptyString ->
         exists more,
           calls (snd (initialize_pipeline env hf_token loaded))
           = cs ++ HubDownload (model_id s) tok :: more)
  /\ (forall access_status,
         fst (initialize_pipeline env hf_token loaded)
         = Ok (Initialized access_status) ->
         exists tok path p0 p1,
           py_or hf_token (token s) = Some tok
           /\ hf_hub_download env (model_id s) tok = Ok path
           /\ from_pretrained env (model_id s) tok = Ok (Some p0)
           /\ to_device env p0 = Ok p1
           /\ pipeline (self (snd (initialize_pipeline env hf_token loaded)))
              = Some p1
           /\ calls (snd (initialize_pipeline env hf_token loaded))
              = cs ++ [HubDownload (model_id s) tok;
                       FromPretrained (model_id s) tok; ToDevice p0]).
Proof.
  run_init.
  destruct (py_or hf_token (token s)) as [[| c tok] |] eqn:Etok; simpl.
  - repeat split; try congruence; intros a H; discriminate.
  - destruct (hf_hub_download env (model_id s) (String c tok))
      as [path | e] eqn:Ehub; simpl.
    + destruct (from_pretrained env (model_id s) (String c tok))
        as [[p0 |] | e] eqn:Eload; simpl.
      * destruct (to_device env p0) as [p1 | e] eqn:Emove; simpl.
        -- repeat split.
           ++ intros tok' Htok _. injection Htok as <-.
              rewrite <- !app_assoc. simpl. eauto.
           ++ intros a _. exists (String c tok), path, p0, p1.
              rewrite <- !app_assoc. simpl. repeat split; assumption.
        -- repeat split.
           ++ intros tok' Htok _. injection Htok as <-.
              rewrite <- !app_assoc. simpl. eauto.
           ++ intros a H. discriminate.
      * repeat split.
        -- intros tok' Htok _. injection Htok as <-.
           rewrite <- !app_assoc. simpl. eauto.
        -- intros a H. discriminate.
      * repeat split.
        -- intros tok' Htok _. injection Htok as <-.
           rewrite <- !app_assoc. simpl. eauto.
        -- intros a H. discriminate.
    + repeat match goal with
             | |- context [if ?b then _ else _] => destruct b; simpl
             end;
        (repeat split;
         [ intros tok' Htok _; injection Htok as <-; eauto
         | intros a H; discriminate ]).
  - repeat split; try congruence; intros a H; discriminate.
Qed.

Lemma initialize_pipeline_runs_again_witness :
  exists tok path p0 p1,
    py_or None (token (new_processor (Some "hf_token"))) = Some tok
    /\ hf_hub_download healthy_env
         (model_id (new_processor (Some "hf_token"))) tok = Ok path
    /\ from_pretrained healthy_env
         (model_id (new_processor (Some "hf_token"))) tok = Ok (Some p0)
    /\ to_device healthy_env p0 = Ok p1
    /\ pipeline
         (self (snd (initialize_pipeline healthy_env None
                       (mkMachine
                          (with_pipeline (new_processor (Some "hf_token"))
                             (Some 7%nat)) [] []))))
       = Some p1
    /\ calls (snd (initialize_pipeline healthy_env None
                     (mkMachine
                        (with_pipeline (new_processor (Some "hf_token"))
                           (Some 7%nat)) [] [])))
       = [] ++ [HubDownload (model_id (new_processor (Some "hf_token"))) tok;
                FromPretrained (model_id (new_processor (Some "hf_token")))
                  tok;
                ToDevice p0].
Proof.
  eapply (proj2 (proj2 (proj2
            (initialize_pipeline_runs_again healthy_env None
               (new_processor (Some "hf_token")) [] [] 7%nat)))).
  vm_compute. reflexivity.
Defined.

(** * Further properties *)

(** ** The post-processor *)

Lemma post_as_merge_of_survivors (cfg : Config) (segments : list Segment)
    (D : Q) :
  _post_process_segments cfg segments D
  = merge_block cfg (survivors cfg D segments).
Proof.
  unfold _post_process_segments, survivors.
  now rewrite filter_pad_loop_spec.
Qed.




Lemma chain_nth_error {A : Type} (R : A -> A -> Prop) (l : list A) :
  chain R l ->
  forall i a b,
    nth_error l i = Some a -> nth_error l (S i) = Some b -> R a b.
Proof.
  induction l as [| x [| y t] IH]; intros Hc i a b Ha Hb.
  - destruct i; discriminate.
  - destruct i as [| [| i]]; discriminate.
  - destruct Hc as [Hxy Hc]. destruct i as [| i].
    + simpl in Ha, Hb. injection Ha as <-. injection Hb as <-. exact Hxy.
    + apply (IH Hc i); assumption.
Qed.

(** X3.  With [merge_gap_s > 0], any two consecutive intervals of the
    output are more than [merge_gap_s] apart: the next one starts more than
    [merge_gap_s] after the previous one ends.  This needs no assumption on
    the input. *)
Theorem output_gaps_exceed_merge_gap (cfg : Config)
    (segments : list Segment) (D : Q) :
  0 < merge_gap_s cfg ->
  forall i a b,
    nth_error (_post_process_segments cfg segments D) i = Some a ->
    nth_error (_post_process_segments cfg segments D) (S i) = Some b ->
    merge_gap_s cfg < start b - end_ a.
Proof.
  intros Hgap. apply (chain_nth_error (apart cfg)).
  rewrite post_as_merge_of_survivors.
  destruct (survivors cfg D segments) as [| first rest]; [exact I |].
  rewrite merge_block_from by exact Hgap.
  apply merge_from_apart.
Qed.

Lemma output_gaps_exceed_merge_gap_witness :
  merge_gap_s default_config
  < start (mkSegment (475 # 100) (1150 # 200))
    - end_ (mkSegment 0 (125 # 100)).
Proof.
  apply (output_gaps_exceed_merge_gap default_config
           [mkSegment 0 (1 # 2); mkSegment (5 # 8) 1; mkSegment 5 (11 # 2)] 6
           eq_refl 0%nat).
  - vm_compute. reflexivity.
  - vm_compute. reflexivity.
Defined.












(** Why the ends have to ascend: merging sets the end of the accumulated
    interval to the end of the next one, also when that is earlier.  From
    [(0, 10)] and [(1, 2)] the output is [(0, 2)]. *)
Remark merge_can_shorten_the_accumulated_interval :
  _post_process_segments (bare_config (1 # 4))
    [mkSegment 0 10; mkSegment 1 2] 10
  = [mkSegment 0 2].
Proof. reflexivity. Qed.

(** ** Rounding and events *)

Lemma round_half_even_Z (n : Z) (d : positive) :
  let k := round_half_even (n # d) in
  (- Zpos d <= 2 * (k * Zpos d - n) <= Zpos d)%Z
  /\ ((2 * (k * Zpos d - n) = Zpos d \/ 2 * (k * Zpos d - n) = - Zpos d)%Z ->
      Z.even k = true).
Proof.
  unfold round_half_even. simpl Qnum. simpl Qden.
  pose proof (Z.div_mod n (Zpos d) ltac:(discriminate)) as Hdm.
  pose proof (Z.mod_pos_bound n (Zpos d) ltac:(reflexivity)) as Hr.
  set (f := (n / Zpos d)%Z) in *. set (r := (n mod Zpos d)%Z) in *.
  destruct (Z.compare_spec (2 * r) (Zpos d)) as [E | E | E].
  - destruct (Z.even f) eqn:Ef.
    + split; [nia | auto].
    + split; [nia |]. intros _.
      replace (f + 1)%Z with (Z.succ f) by lia.
      rewrite Z.even_succ, <- Z.negb_even, Ef. reflexivity.
  - split; [nia |]. intros [H | H]; nia.
  - split; [nia |]. intros [H | H]; nia.
Qed.

Lemma round_half_even_near (x : Q) :
  x - (1 # 2) <= inject_Z (round_half_even x)
  /\ inject_Z (round_half_even x) <= x + (1 # 2).
Proof.
  destruct x as [n d].
  destruct (round_half_even_Z n d) as [[H1 H2] _].
  unfold Qle, Qminus, Qplus, Qopp, inject_Z. simpl. split; nia.
Qed.

Lemma round_half_even_tie (x : Q) :
  inject_Z (round_half_even x) - x == 1 # 2
  \/ x - inject_Z (round_half_even x) == 1 # 2 ->
  Z.even (round_half_even x) = true.
Proof.
  destruct x as [n d].
  destruct (round_half_even_Z n d) as [_ H]. intros Ht. apply H.
  unfold Qeq, Qminus, Qplus, Qopp, inject_Z in Ht. simpl in Ht.
  destruct Ht as [Ht | Ht]; [left | right]; nia.
Qed.

Lemma round_half_even_mono (x y : Q) :
  x <= y -> (round_half_even x <= round_half_even y)%Z.
Proof.
  intros Hxy.
  destruct (Z_le_gt_dec (round_half_even x) (round_half_even y))
    as [H | H]; [exact H | exfalso].
  destruct (round_half_even_near x) as [_ Hx].
  destruct (round_half_even_near y) as [Hy _].
  assert (Hstep : inject_Z (round_half_even y) + 1
                  <= inject_Z (round_half_even x)).
  { change 1 with (inject_Z 1). rewrite <- inject_Z_plus.
    rewrite <- Zle_Qle. lia. }
  assert (Ex : Z.even (round_half_even x) = true).
  { apply round_half_even_tie. left. apply Qle_antisym; lra. }
  assert (Ey : Z.even (round_half_even y) = true).
  { apply round_half_even_tie. right. apply Qle_antisym; lra. }
  assert (Eq1 : (round_half_even x = Z.succ (round_half_even y))%Z).
  { assert (Hle : inject_Z (round_half_even x)
                  <= inject_Z (round_half_even y + 1)).
    { rewrite inject_Z_plus. change (inject_Z 1) with 1. lra. }
    rewrite <- Zle_Qle in Hle. lia. }
  rewrite Eq1, Z.even_succ, <- Z.negb_even, Ey in Ex. discriminate.
Qed.

Lemma round3_mono (x y : Q) : x <= y -> round3 x <= round3 y.
Proof.
  intros H. unfold round3.
  assert (Hk : (round_half_even (x * 1000) <= round_half_even (y * 1000))%Z)
    by (apply round_half_even_mono; lra).
  unfold Qle. simpl. lia.
Qed.

(** X8.  Rounding keeps the order: an interval with [start <= end] gives an
    event with [start <= end] and a duration that is not negative. *)
Theorem event_is_not_inverted (s : Segment) :
  start s <= end_ s ->
  ev_start (speech_event s) <= ev_end (speech_event s)
  /\ 0 <= ev_duration (speech_event s).
Proof.
  intros H. simpl. split.
  - apply round3_mono. exact H.
  - apply Qle_trans with (round3 0).
    + vm_compute. discriminate.
    + apply round3_mono. lra.
Qed.

Lemma event_is_not_inverted_witness :
  ev_start (speech_event (mkSegment (1 # 2048) (3 # 4096)))
  <= ev_end (speech_event (mkSegment (1 # 2048) (3 # 4096)))
  /\ 0 <= ev_duration (speech_event (mkSegment (1 # 2048) (3 # 4096))).
Proof.
  apply (event_is_not_inverted (mkSegment (1 # 2048) (3 # 4096))).
  vm_compute. discriminate.
Defined.

(** ** Reasoning about computations *)

Lemma bind_inv {A B : Type} (c : M A) (k : A -> M B) (m m' : Machine)
    (r : res B) :
  bind c k m = (r, m') ->
  (exists a m1, c m = (Ok a, m1) /\ k a m1 = (r, m'))
  \/ (exists e, c m = (Raise e, m') /\ r = Raise e).
Proof.
  unfold bind. destruct (c m) as [[a | e] m1]; intros H.
  - left. eauto.
  - right. injection H as <- <-. eauto.
Qed.

Lemma preserves_bind {A B X : Type} (f : Machine -> X) (c : M A)
    (k : A -> M B) :
  preserves f c -> (forall a, preserves f (k a)) -> preserves f (bind c k).
Proof.
  intros Hc Hk m r m2 H. apply bind_inv in H.
  destruct H as [[a [m1 [H1 H2]]] | [e [H1 _]]].
  - rewrite (Hk a _ _ _ H2). eapply Hc; eauto.
  - eapply Hc; eauto.
Qed.

Lemma preserves_try {A X : Type} (f : Machine -> X) (body : M A)
    (handler : Exn -> M A) :
  preserves f body -> (forall e, preserves f (handler e)) ->
  preserves f (try_except body handler).
Proof.
  intros Hb Hh m r m2. unfold try_except.
  destruct (body m) as [[a | e] m1] eqn:E; intros H.
  - injection H as <- <-. eapply Hb; eauto.
  - rewrite (Hh e _ _ _ H). eapply Hb; eauto.
Qed.

Lemma preserves_step {A X : Type} (f : Machine -> X) (c : M A) :
  (forall m, f (snd (c m)) = f m) -> preserves f c.
Proof.
  intros H m r m1 E. specialize (H m). now rewrite E in H.
Qed.

(** Discharges [preserves] goals by following the structure of the
    computation. *)
Ltac preserving :=
  repeat first
    [ apply preserves_bind; [| intros ?]
    | apply preserves_try; [| intros ?]
    | apply preserves_step; reflexivity
    | match goal with
      | |- preserves _ (if ?b then _ else _) => destruct b
      | |- preserves _ (match ?x with _ => _ end) => destruct x
      | |- preserves _ (let (_, _) := ?x in _) => destruct x
      | |- preserves _ (let _ := _ in _) => cbv zeta
      end ].

Lemma emits_bind {A B : Type} (P : Call -> Prop) (c : M A) (k : A -> M B) :
  emits P c -> (forall a, emits P (k a)) -> emits P (bind c k).
Proof.
  intros Hc Hk m r m2 H. apply bind_inv in H.
  destruct H as [[a [m1 [H1 H2]]] | [e [H1 _]]].
  - destruct (Hc _ _ _ H1) as [l1 [E1 F1]].
    destruct (Hk a _ _ _ H2) as [l2 [E2 F2]].
    exists (l1 ++ l2). rewrite E2, E1, app_assoc. split; [reflexivity |].
    apply Forall_app. auto.
  - eapply Hc; eauto.
Qed.

Lemma emits_try {A : Type} (P : Call -> Prop) (body : M A)
    (handler : Exn -> M A) :
  emits P body -> (forall e, emits P (handler e)) ->
  emits P (try_except body handler).
Proof.
  intros Hb Hh m r m2. unfold try_except.
  destruct (body m) as [[a | e] m1] eqn:E; intros H.
  - injection H as <- <-. eapply Hb; eauto.
  - destruct (Hb _ _ _ E) as [l1 [E1 F1]].
    destruct (Hh e _ _ _ H) as [l2 [E2 F2]].
    exists (l1 ++ l2). rewrite E2, E1, app_assoc. split; [reflexivity |].
    apply Forall_app. auto.
Qed.

Lemma emits_silent {A : Type} (P : Call -> Prop) (c : M A) :
  (forall m, calls (snd (c m)) = calls m) -> emits P c.
Proof.
  intros H m r m1 E. specialize (H m). rewrite E in H. simpl in H.
  exists []. rewrite app_nil_r. auto.
Qed.

Lemma emits_call (P : Call -> Prop) (c : Call) : P c -> emits P (call c).
Proof.
  intros Hc m r m1 E. unfold call in E. injection E as _ <-.
  exists [c]. simpl. auto.
Qed.

(** Discharges [emits] goals; what is left are the [P c] for the calls
    made. *)
Ltac emitting :=
  repeat first
    [ apply emits_bind; [| intros ?]
    | apply emits_try; [| intros ?]
    | apply emits_silent; reflexivity
    | apply emits_call
    | match goal with
      | |- emits _ (if ?b then _ else _) => destruct b
      | |- emits _ (match ?x with _ => _ end) => destruct x
      | |- emits _ (let (_, _) := ?x in _) => destruct x
      | |- emits _ (let _ := _ in _) => cbv zeta
      end ].

Lemma try_except_never_raises {A : Type} (body : M A)
    (handler : Exn -> M A) :
  (forall e, never_raises (handler e)) ->
  never_raises (try_except body handler).
Proof.
  intros Hh m. unfold try_except.
  destruct (body m) as [[a | e] m1]; [eauto | apply Hh].
Qed.

(** ** [check_model_access] *)

Lemma check_model_access_run (env : Env) (model_id token : string)
    (m : Machine) :
  exists a,
    check_model_access env model_id token m
    = (Ok a, mkMachine (self m) (files m)
               (calls m ++ [HubDownload model_id token]))
    /\ (success a = true <->
        exists path, hf_hub_download env model_id token = Ok path)
    /\ (success a = true -> details a = None /\ config_path a <> None)
    /\ (success a = false -> details a <> None /\ config_path a = None).
Proof.
  unfold check_model_access, bind, call, ret. simpl.
  destruct (hf_hub_download env model_id token) as [path | e].
  - eexists. split; [reflexivity |]. simpl.
    repeat split; try discriminate; eauto.
  - repeat match goal with
           | |- context [if ?b then _ else _] => destruct b
           end;
      (eexists; split; [reflexivity |]; simpl;
       repeat split; try discriminate;
       intros [path H]; discriminate).
Qed.

(** X9.  [check_model_access] never raises and does nothing but one hub
    download.  Its answer has [success = True] exactly when the download
    returned; a successful answer carries the configuration path and no
    details, a failed one carries details and no path. *)
Theorem check_model_access_reports (env : Env) (model_id token : string)
    (m : Machine) :
  exists a,
    check_model_access env model_id token m
    = (Ok a, mkMachine (self m) (files m)
               (calls m ++ [HubDownload model_id token]))
    /\ (success a = true <->
        exists path, hf_hub_download env model_id token = Ok path)
    /\ (success a = true -> details a = None /\ config_path a <> None)
    /\ (success a = false -> details a <> None /\ config_path a = None).
Proof. exact (check_model_access_run env model_id token m). Qed.

(** ** [initialize_pipeline] *)

Lemma initialize_pipeline_never_raises env hf_token :
  never_raises (initialize_pipeline env hf_token).
Proof.
  unfold initialize_pipeline. apply try_except_never_raises.
  intros e m. unfold bind, set_initialization_error, ret. simpl. eauto.
Qed.

(** X10.  [initialize_pipeline] always returns one of its result
    dictionaries (no exception escapes), and whatever happens it changes
    neither the configuration, the model id, the stored token nor the device
    of the object: the explicit token is used, not stored. *)
Theorem initialize_pipeline_is_contained (env : Env)
    (hf_token : option string) (m : Machine) :
  exists r m',
    initialize_pipeline env hf_token m = (Ok r, m')
    /\ config (self m') = config (self m)
    /\ model_id (self m') = model_id (self m)
    /\ token (self m') = token (self m)
    /\ device_str (self m') = device_str (self m).
Proof.
  destruct (initialize_pipeline_never_raises env hf_token m) as [r [m' E]].
  exists r, m'. split; [exact E |].
  assert (Ha : preserves fixed_attributes (initialize_pipeline env hf_token))
    by (unfold initialize_pipeline; preserving).
  specialize (Ha _ _ _ E). unfold fixed_attributes in Ha.
  injection Ha as -> -> -> ->. auto.
Qed.

(** X11.  Without a usable token (the argument and the stored token are
    both [None] or empty), [initialize_pipeline] returns the missing-token
    failure and does nothing else: no outside call is made and the object is
    unchanged. *)
Theorem missing_token_makes_no_call (env : Env) (hf_token : option string)
    (m : Machine) :
  truthy hf_token = false ->
  truthy (token (self m)) = false ->
  initialize_pipeline env hf_token m = (Ok MissingToken, m).
Proof.
  intros Hhf Htok.
  unfold initialize_pipeline, try_except, bind, get_self, ret, py_or.
  rewrite Hhf.
  destruct (token (self m)) as [[| c t] |]; try reflexivity.
  discriminate.
Qed.

Lemma missing_token_makes_no_call_witness :
  initialize_pipeline expired_token_env (Some EmptyString)
    (mkMachine (new_processor None) [] [])
  = (Ok MissingToken, mkMachine (new_processor None) [] []).
Proof.
  apply (missing_token_makes_no_call expired_token_env (Some EmptyString)
           (mkMachine (new_processor None) [] [])); reflexivity.
Defined.

(** X12.  When the hub download raises, [initialize_pipeline] returns the
    access-denied failure with the status of [check_model_access] in it.
    The engine is not loaded, and the object is left exactly as it was: in
    particular [initialization_error] is not set. *)
Theorem access_denied_changes_nothing (env : Env) (hf_token : option string)
    (m : Machine) (tok : string) (e : Exn) :
  py_or hf_token (token (self m)) = Some tok ->
  tok <> EmptyString ->
  hf_hub_download env (model_id (self m)) tok = Raise e ->
  exists a,
    fst (check_model_access env (model_id (self m)) tok m) = Ok a
    /\ success a = false
    /\ initialize_pipeline env hf_token m
       = (Ok (AccessDenied a),
          mkMachine (self m) (files m)
            (calls m ++ [HubDownload (model_id (self m)) tok])).
Proof.
  intros Htok Hne Hhub.
  destruct (check_model_access_run env (model_id (self m)) tok m)
    as [a [Ea [Hsucc _]]].
  assert (Hfail : success a = false).
  { destruct (success a); [| reflexivity].
    destruct (proj1 Hsucc eq_refl) as [path Hp]. congruence. }
  exists a. rewrite Ea. repeat split; auto.
  unfold initialize_pipeline, try_except, bind, get_self. cbv beta iota.
  rewrite Htok.
  destruct tok as [| c t]; [congruence |].
  rewrite Ea, Hfail. reflexivity.
Qed.

Lemma access_denied_changes_nothing_witness :
  exists a,
    fst (check_model_access expired_token_env
           (model_id (new_processor (Some "hf_token"))) "hf_token"
           (mkMachine (new_processor (Some "hf_token")) [] [])) = Ok a
    /\ success a = false
    /\ initialize_pipeline expired_token_env None
         (mkMachine (new_processor (Some "hf_token")) [] [])
       = (Ok (AccessDenied a),
          mkMachine (new_processor (Some "hf_token")) []
            ([] ++ [HubDownload (model_id (new_processor (Some "hf_token")))
                      "hf_token"])).
Proof.
  apply (access_denied_changes_nothing expired_token_env None
           (mkMachine (new_processor (Some "hf_token")) [] []) "hf_token"
           (mkExn "HTTPError" "401 Client Error: Unauthorized")).
  - reflexivity.
  - discriminate.
  - reflexivity.
Defined.

Lemma access_granted (env : Env) (model_id tok path : string) (m : Machine) :
  hf_hub_download env model_id tok = Ok path ->
  exists a,
    success a = true
    /\ check_model_access env model_id tok m
       = (Ok a, mkMachine (self m) (files m)
                  (calls m ++ [HubDownload model_id tok])).
Proof.
  intros Hhub.
  destruct (check_model_access_run env model_id tok m)
    as [a [Ea [Hsucc _]]].
  exists a. split; [| exact Ea]. apply Hsucc. eauto.
Qed.

Ltac run_initialize Htok Ea Hsucc :=
  unfold initialize_pipeline, try_except, bind, get_self; cbv beta iota;
  rewrite Htok;
  match goal with
  | Hne : ?tok <> EmptyString |- _ =>
      destruct tok; [congruence |]
  end;
  rewrite Ea, Hsucc;
  unfold call, lift, set_pipeline, set_initialization_error, raise, ret;
  cbn [negb self files calls fst snd].

(** X13.  When the access check passes but loading the engine raises,
    [initialize_pipeline] returns the failure carrying that exception,
    records ["Erreur initialisation pipeline: " + str(e)] in
    [initialization_error], and leaves [self.pipeline] as it was.  When the
    loader returns [None] instead of raising, [self.pipeline] is set to
    [None] (a pipeline loaded earlier is gone) and the failure is the
    [AttributeError] of calling [.to] on it. *)
Theorem load_failure_is_recorded (env : Env) (hf_token : option string)
    (m : Machine) (tok path : string) :
  py_or hf_token (token (self m)) = Some tok ->
  tok <> EmptyString ->
  hf_hub_download env (model_id (self m)) tok = Ok path ->
  (forall e,
      from_pretrained env (model_id (self m)) tok = Raise e ->
      initialize_pipeline env hf_token m
      = (Ok (InitFailed e),
         mkMachine
           (with_initialization_error (self m)
              (Some (String.append "Erreur initialisation pipeline: "
                       (exn_msg e))))
           (files m)
           (calls m ++ [HubDownload (model_id (self m)) tok;
                        FromPretrained (model_id (self m)) tok])))
  /\ (from_pretrained env (model_id (self m)) tok = Ok None ->
      initialize_pipeline env hf_token m
      = (Ok (InitFailed NoneType_has_no_to),
         mkMachine
           (with_initialization_error (with_pipeline (self m) None)
              (Some (String.append "Erreur initialisation pipeline: "
                       (exn_msg NoneType_has_no_to))))
           (files m)
           (calls m ++ [HubDownload (model_id (self m)) tok;
                        FromPretrained (model_id (self m)) tok]))).
Proof.
  intros Htok Hne Hhub.
  destruct (access_granted env (model_id (self m)) tok path m Hhub)
    as [a [Hsucc Ea]].
  split.
  - intros e Hload. run_initialize Htok Ea Hsucc.
    rewrite Hload. rewrite <- app_assoc. reflexivity.
  - intros Hload. run_initialize Htok Ea Hsucc.
    rewrite Hload. rewrite <- app_assoc. reflexivity.
Qed.

Lemma load_failure_is_recorded_witness :
  initialize_pipeline unloadable_env None
    (mkMachine (new_processor (Some "hf_token")) [] [])
  = (Ok (InitFailed (mkExn "OSError" "weights not found")),
     mkMachine
       (with_initialization_error (new_processor (Some "hf_token"))
          (Some (String.append "Erreur initialisation pipeline: "
                   (exn_msg (mkExn "OSError" "weights not found")))))
       []
       ([] ++ [HubDownload (model_id (new_processor (Some "hf_token")))
                 "hf_token";
               FromPretrained (model_id (new_processor (Some "hf_token")))
                 "hf_token"])).
Proof.
  apply (proj1 (load_failure_is_recorded unloadable_env None
                  (mkMachine (new_processor (Some "hf_token")) [] [])
                  "hf_token" "config.yaml" eq_refl
                  ltac:(discriminate) eq_refl)).
  reflexivity.
Defined.

(** X14.  When the engine loads but moving it to the device raises,
    [initialize_pipeline] returns a failure and records the error, yet
    [self.pipeline] keeps the engine that was loaded: the health status then
    reports [initialized = True] together with the error. *)
Theorem move_failure_leaves_engine_loaded (env : Env)
    (hf_token : option string) (m : Machine) (tok path : string)
    (p0 : Pipeline) (e : Exn) (tm : TokenManager) :
  py_or hf_token (token (self m)) = Some tok ->
  tok <> EmptyString ->
  hf_hub_download env (model_id (self m)) tok = Ok path ->
  from_pretrained env (model_id (self m)) tok = Ok (Some p0) ->
  to_device env p0 = Raise e ->
  let after := snd (initialize_pipeline env hf_token m) in
  fst (initialize_pipeline env hf_token m) = Ok (InitFailed e)
  /\ pipeline (self after) = Some p0
  /\ initialization_error (self after)
     = Some (String.append "Erreur initialisation pipeline: " (exn_msg e))
  /\ exists status after',
       get_health_status env tm after = (Ok status, after')
       /\ initialized status = true
       /\ last_error status
          = Some (String.append "Erreur initialisation pipeline: "
                    (exn_msg e)).
Proof.
  intros Htok Hne Hhub Hload Hmove.
  destruct (access_granted env (model_id (self m)) tok path m Hhub)
    as [a [Hsucc Ea]].
  assert (E : initialize_pipeline env hf_token m
              = (Ok (InitFailed e),
                 mkMachine
                   (with_initialization_error
                      (with_pipeline (self m) (Some p0))
                      (Some (String.append "Erreur initialisation pipeline: "
                               (exn_msg e))))
                   (files m)
                   (calls m ++ [HubDownload (model_id (self m)) tok;
                                FromPretrained (model_id (self m)) tok;
                                ToDevice p0]))).
  { run_initialize Htok Ea Hsucc.
    rewrite Hload. cbn [self files calls]. rewrite Hmove.
    rewrite <- !app_assoc. reflexivity. }
  rewrite E. cbn [fst snd].
  repeat split.
  unfold get_health_status, check_prerequisites, bind, get_self, call, ret.
  cbn. eexists _, _. repeat split.
Qed.

Lemma move_failure_leaves_engine_loaded_witness :
  fst (initialize_pipeline no_device_env None
         (mkMachine (new_processor (Some "hf_token")) [] []))
  = Ok (InitFailed (mkExn "RuntimeError" "MPS backend out of memory"))
  /\ pipeline
       (self (snd (initialize_pipeline no_device_env None
                     (mkMachine (new_processor (Some "hf_token")) [] []))))
     = Some 1%nat.
Proof.
  destruct (move_failure_leaves_engine_loaded no_device_env None
              (mkMachine (new_processor (Some "hf_token")) [] [])
              "hf_token" "config.yaml" 1%nat
              (mkExn "RuntimeError" "MPS backend out of memory")
              (mkTokenManager None None)
              eq_refl ltac:(discriminate) eq_refl eq_refl eq_refl)
    as [H1 [H2 _]].
  split; [exact H1 | exact H2].
Defined.

(** X15.  When the token is usable, the hub download returns, the engine
    loads and the move to the device returns, [initialize_pipeline] returns
    success with the access status, stores the moved engine in
    [self.pipeline] and clears [initialization_error], whatever it held;
    the outside calls are the download, the load and the move, in that
    order. *)
Theorem initialization_succeeds (env : Env) (hf_token : option string)
    (m : Machine) (tok path : string) (p0 p1 : Pipeline) :
  py_or hf_token (token (self m)) = Some tok ->
  tok <> EmptyString ->
  hf_hub_download env (model_id (self m)) tok = Ok path ->
  from_pretrained env (model_id (self m)) tok = Ok (Some p0) ->
  to_device env p0 = Ok p1 ->
  exists a,
    success a = true
    /\ initialize_pipeline env hf_token m
       = (Ok (Initialized a),
          mkMachine
            (with_initialization_error (with_pipeline (self m) (Some p1))
               None)
            (files m)
            (calls m ++ [HubDownload (model_id (self m)) tok;
                         FromPretrained (model_id (self m)) tok;
                         ToDevice p0])).
Proof.
  intros Htok Hne Hhub Hload Hmove.
  destruct (access_granted env (model_id (self m)) tok path m Hhub)
    as [a [Hsucc Ea]].
  exists a. split; [exact Hsucc |].
  run_initialize Htok Ea Hsucc.
  rewrite Hload. cbn [self files calls]. rewrite Hmove.
  rewrite <- !app_assoc. reflexivity.
Qed.

Lemma initialization_succeeds_witness :
  exists a,
    success a = true
    /\ initialize_pipeline healthy_env (Some "hf_explicit")
         (mkMachine
            (with_initialization_error (new_processor None)
               (Some "Erreur initialisation pipeline: earlier")) [] [])
       = (Ok (Initialized a),
          mkMachine
            (with_initialization_error
               (with_pipeline
                  (with_initialization_error (new_processor None)
                     (Some "Erreur initialisation pipeline: earlier"))
                  (Some 1%nat))
               None)
            []
            ([] ++ [HubDownload "pyannote/voice-activity-detection"
                      "hf_explicit";
                    FromPretrained "pyannote/voice-activity-detection"
                      "hf_explicit";
                    ToDevice 1%nat])).
Proof.
  apply (initialization_succeeds healthy_env (Some "hf_explicit")
           (mkMachine
              (with_initialization_error (new_processor None)
                 (Some "Erreur initialisation pipeline: earlier")) [] [])
           "hf_explicit" "config.yaml" 1%nat 1%nat).
  - reflexivity.
  - discriminate.
  - reflexivity.
  - reflexivity.
  - reflexivity.
Defined.

(** ** [process_audio] *)

Lemma process_body_inv env file_path t m rb mb :
  (s <- get_self ;;
   match pipeline s with
   | Some _ => process_steps env file_path t
   | None =>
       init <- initialize_pipeline env None ;;
       if negb (dict_truthy (init_keys init))
       then
         s' <- get_self ;;
         health <- check_prerequisites env ;;
         ret (NotReady (error_or_default (initialization_error s')) health)
       else process_steps env file_path t
   end) m = (rb, mb) ->
  exists m3,
    ((pipeline (self m) <> None /\ m3 = m)
     \/ (pipeline (self m) = None
         /\ exists init, initialize_pipeline env None m = (Ok init, m3)))
    /\ process_steps env file_path t m3 = (rb, mb).
Proof.
  intros Hb. apply bind_inv in Hb.
  destruct Hb as [[s [m2 [H2 Hb]]] | [e [H2 _]]]; [| discriminate].
  injection H2 as <- <-.
  destruct (pipeline (self m)) as [p |] eqn:Ep.
  - exists m. split; [left; split; [discriminate | reflexivity] | exact Hb].
  - apply bind_inv in Hb.
    destruct Hb as [[init [m3 [H3 Hb]]] | [e [H3 _]]].
    + exists m3. split; [right; eauto |].
      destruct init; exact Hb.
    + destruct (initialize_pipeline_never_raises env None m)
        as [a [m1 Ha]]. congruence.
Qed.

(** [process_audio] is the processing steps, preceded by one initialization
    attempt when no engine is loaded, with any exception of the steps turned
    into a failure dictionary. *)
Lemma process_audio_inv env file_path m r m' :
  process_audio env file_path m = (r, m') ->
  exists m3,
    ((pipeline (self m) <> None /\ m3 = m)
     \/ (pipeline (self m) = None
         /\ exists init, initialize_pipeline env None m = (Ok init, m3)))
    /\ ((exists result,
            process_steps env file_path (time env (calls m)) m3
            = (Ok result, m')
            /\ r = Ok result)
        \/ (exists e,
               process_steps env file_path (time env (calls m)) m3
               = (Raise e, m')
               /\ r = Ok (Failed (exn_msg e) (exn_type e)))).
Proof.
  unfold process_audio. intros H.
  apply bind_inv in H.
  destruct H as [[before0 [m0 [H0 H]]] | [e [H0 _]]]; [| discriminate].
  injection H0 as <- <-.
  unfold try_except in H.
  match type of H with
  | context [match ?b ?x with _ => _ end] =>
      destruct (b x) as [[result | e] m1] eqn:E
  end.
  - injection H as <- <-.
    destruct (process_body_inv _ _ _ _ _ _ E) as [m3 [Hm3 Hs]].
    exists m3. split; [exact Hm3 | left; eauto].
  - injection H as <- <-.
    destruct (process_body_inv _ _ _ _ _ _ E) as [m3 [Hm3 Hs]].
    exists m3. split; [exact Hm3 | right; eauto].
Qed.

Lemma preserves_fixed_steps env file_path t :
  preserves fixed_attributes (process_steps env file_path t).
Proof.
  unfold process_steps, _extract_audio_from_video, _get_file_hash,
    save_results.
  preserving.
Qed.

Lemma preserves_self_steps env file_path t :
  preserves self (process_steps env file_path t).
Proof.
  unfold process_steps, _extract_audio_from_video, _get_file_hash,
    save_results.
  preserving.
Qed.

Lemma emits_processing_steps env file_path t :
  emits processing_call (process_steps env file_path t).
Proof.
  unfold process_steps, _extract_audio_from_video, _get_file_hash,
    save_results.
  emitting; exact I.
Qed.

(** X16.  [process_audio] always returns a result dictionary: no exception
    escapes it.  Whatever happens, it changes neither the configuration, the
    model id, the stored token nor the device of the object. *)
Theorem process_audio_is_contained (env : Env) (file_path : string)
    (m : Machine) :
  exists r m',
    process_audio env file_path m = (Ok r, m')
    /\ config (self m') = config (self m)
    /\ model_id (self m') = model_id (self m)
    /\ token (self m') = token (self m)
    /\ device_str (self m') = device_str (self m).
Proof.
  destruct (process_audio env file_path m) as [r m'] eqn:E.
  destruct (process_audio_inv _ _ _ _ _ E) as [m3 [Hm3 Hs]].
  assert (H3 : fixed_attributes m3 = fixed_attributes m).
  { destruct Hm3 as [[_ ->] | [_ [init Hi]]]; [reflexivity |].
    assert (Ha : preserves fixed_attributes (initialize_pipeline env None))
      by (unfold initialize_pipeline; preserving).
    exact (Ha _ _ _ Hi). }
  assert (H' : fixed_attributes m' = fixed_attributes m).
  { rewrite <- H3.
    destruct Hs as [[result [Hs _]] | [e [Hs _]]];
      exact (preserves_fixed_steps _ _ _ _ _ _ Hs). }
  unfold fixed_attributes in H'. injection H' as Hc Hi Ht Hd.
  destruct Hs as [[result [_ ->]] | [e [_ ->]]]; eexists _, m';
    repeat split; assumption.
Qed.

(** X17.  With an engine already loaded, [process_audio] leaves the object
    exactly as it is and makes no initialization call: the only outside
    calls are those of the processing steps (ffmpeg, hashing, decoding,
    inference, removal of the scratch file, report). *)
Theorem loaded_engine_is_reused (env : Env) (file_path : string)
    (m : Machine) (p : Pipeline) :
  pipeline (self m) = Some p ->
  self (snd (process_audio env file_path m)) = self m
  /\ exists added,
       calls (snd (process_audio env file_path m)) = calls m ++ added
       /\ Forall processing_call added.
Proof.
  intros Hp.
  destruct (process_audio env file_path m) as [r m'] eqn:E.
  destruct (process_audio_inv _ _ _ _ _ E) as [m3 [Hm3 Hs]].
  destruct Hm3 as [[_ ->] | [Hnone _]]; [| congruence].
  cbn [snd].
  destruct Hs as [[result [Hs _]] | [e [Hs _]]].
  - split; [exact (preserves_self_steps _ _ _ _ _ _ Hs) |].
    exact (emits_processing_steps _ _ _ _ _ _ Hs).
  - split; [exact (preserves_self_steps _ _ _ _ _ _ Hs) |].
    exact (emits_processing_steps _ _ _ _ _ _ Hs).
Qed.

Lemma loaded_engine_is_reused_witness :
  self (snd (process_audio expired_token_env "talk.wav"
               (mkMachine (with_pipeline (new_processor None) (Some 1%nat))
                  [] [])))
  = with_pipeline (new_processor None) (Some 1%nat)
  /\ exists added,
       calls (snd (process_audio expired_token_env "talk.wav"
                     (mkMachine
                        (with_pipeline (new_processor None) (Some 1%nat))
                        [] [])))
       = [] ++ added
       /\ Forall processing_call added.
Proof.
  apply (loaded_engine_is_reused expired_token_env "talk.wav"
           (mkMachine (with_pipeline (new_processor None) (Some 1%nat))
              [] []) 1%nat).
  reflexivity.
Defined.

Lemma call_then_lift_inv {A : Type} (c : Call) (r : res A) (m m' : Machine)
    (out : res A) :
  (call c ;;; lift r) m = (out, m') ->
  out = r /\ m' = mkMachine (self m) (files m) (calls m ++ [c]).
Proof. unfold bind, call, lift. simpl. intros H. now injection H as <- <-. Qed.

(** What [_extract_audio_from_video] does, whatever its outcome: one run of
    [ffmpeg] on the scratch path, and at most that one file more on disk; it
    returns only when the return code is 0, and then returns the scratch
    path. *)
Lemma extract_inv env video_path m r m1 :
  _extract_audio_from_video env video_path m = (r, m1) ->
  self m1 = self m
  /\ calls m1 = calls m ++ [Ffmpeg video_path (scratch_path video_path)]
  /\ (files m1 = files m \/ files m1 = scratch_path video_path :: files m)
  /\ (forall a,
         r = Ok a ->
         a = scratch_path video_path
         /\ exists run,
              ffmpeg env video_path (scratch_path video_path) = Ok run
              /\ returncode run = 0%Z
              /\ files m1 = if output_written run
                            then scratch_path video_path :: files m
                            else files m).
Proof.
  unfold _extract_audio_from_video, bind, call, lift, get_files, set_files,
    ret, raise.
  fold (scratch_path video_path). cbn [self files calls].
  destruct (ffmpeg env video_path (scratch_path video_path)) as [run | e].
  - destruct (output_written run) eqn:Ew; cbn [self files calls];
      destruct (returncode run =? 0)%Z eqn:Ec; cbn [negb];
      intros H; injection H as <- <-; cbn [self files calls];
      (repeat split; auto; try congruence;
       exists run; rewrite Ew; apply Z.eqb_eq in Ec; auto).
  - intros H. injection H as <- <-. cbn [self files calls].
    repeat split; auto; discriminate.
Qed.

(** A run of the steps that returns: what was read, what is returned, and
    where it leaves the machine. *)
Lemma process_steps_success env file_path t m r m' :
  process_steps env file_path t m = (Ok r, m') ->
  exists audio_path p n sr v m1,
    ((is_video_path file_path = false /\ audio_path = file_path /\ m1 = m)
     \/ (is_video_path file_path = true
         /\ _extract_audio_from_video env file_path m = (Ok audio_path, m1)))
    /\ sf_read env audio_path = Ok (n, sr)
    /\ sr <> 0%Z
    /\ pipeline (self m) = Some p
    /\ infer env p audio_path = Ok v
    /\ (let D := inject_Z n / inject_Z sr in
        let evs :=
          map speech_event
            (_post_process_segments (config (self m)) (timeline_segments v)
               D) in
        let elapsed :=
          time env (calls m1 ++ [HashFile file_path; SfRead audio_path;
                                 Infer p audio_path]) - t in
        r = Succeeded
              (mkMetadata file_path
                 (if is_video_path file_path then "video" else "audio")
                 (round3 D) "vad" (model_id (self m)) (device_str (self m))
                 (round3 elapsed)
                 (round3 (if Qlt_bool 0 D then elapsed / D else 0))
                 (List.length evs) (config (self m)))
              evs)
    /\ self m' = self m
    /\ files m'
       = (if is_video_path file_path
             && existsb (String.eqb audio_path) (files m1)
          then List.remove string_dec audio_path (files m1)
          else files m1)
    /\ calls m'
       = calls m1
         ++ [HashFile file_path; SfRead audio_path; Infer p audio_path]
         ++ (if is_video_path file_path
                && existsb (String.eqb audio_path) (files m1)
             then [OsRemove audio_path] else [])
         ++ [WriteReport file_path].
Proof.
  unfold process_steps. fold (is_video_path file_path). intros H.
  apply bind_ok in H. destruct H as [audio_path [m1 [H1 H]]].
  assert (Hstep :
    (is_video_path file_path = false /\ audio_path = file_path /\ m1 = m)
    \/ (is_video_path file_path = true
        /\ _extract_audio_from_video env file_path m = (Ok audio_path, m1))).
  { destruct (is_video_path file_path); [right; auto | left].
    unfold ret in H1. injection H1 as <- <-. auto. }
  assert (Hself1 : self m1 = self m).
  { destruct Hstep as [[_ [_ ->]] | [_ He]]; [reflexivity |].
    apply extract_inv in He. tauto. }
  apply bind_ok in H. destruct H as [file_hash [m2 [H2 H]]].
  unfold _get_file_hash in H2. apply call_then_lift_inv in H2.
  destruct H2 as [_ ->].
  apply bind_ok in H. destruct H as [[n sr] [m3 [H3 H]]].
  apply call_then_lift_inv in H3. destruct H3 as [Hread ->].
  cbn [self files calls] in H.
  destruct (sr =? 0)%Z eqn:Esr; [discriminate |].
  apply bind_ok in H. destruct H as [s [m4 [H4 H]]].
  unfold get_self in H4. injection H4 as <- <-. cbn [self] in H.
  apply bind_ok in H. destruct H as [v [m5 [H5 H]]].
  destruct (pipeline (self m1)) as [p |] eqn:Ep; [| discriminate].
  apply call_then_lift_inv in H5. destruct H5 as [Hinfer ->].
  apply bind_ok in H. destruct H as [now [m6 [H6 H]]].
  unfold get_calls in H6. injection H6 as <- <-.
  apply bind_ok in H. destruct H as [fs [m7 [H7 H]]].
  unfold get_files in H7. injection H7 as <- <-.
  cbn [self files calls] in H.
  apply bind_ok in H. destruct H as [u [m8 [H8 H]]].
  apply bind_ok in H. destruct H as [u' [m9 [H9 H]]].
  unfold save_results, call in H9. injection H9 as _ <-.
  unfold ret in H. injection H as <- <-.
  exists audio_path, p, n, sr, v, m1.
  rewrite <- Hself1.
  split; [exact Hstep |]. split; [congruence |].
  split; [apply Z.eqb_neq; exact Esr |].
  split; [exact Ep |]. split; [congruence |].
  rewrite <- !app_assoc. cbn [app].
  destruct (is_video_path file_path
            && existsb (String.eqb audio_path) (files m1)).
  - unfold bind, call, set_files in H8. injection H8 as _ <-.
    cbn [self files calls]. rewrite <- !app_assoc. cbn [app].
    repeat split.
  - unfold ret in H8. injection H8 as _ <-.
    cbn [self files calls]. rewrite <- !app_assoc. cbn [app].
    repeat split.
Qed.

Lemma preserves_fixed_init env hf_token :
  preserves fixed_attributes (initialize_pipeline env hf_token).
Proof. unfold initialize_pipeline. preserving. Qed.

Lemma preserves_files_init env hf_token :
  preserves files (initialize_pipeline env hf_token).
Proof. unfold initialize_pipeline. preserving. Qed.

(** A success of [process_audio] is a success of the steps, run on a machine
    that has the files and the fixed attributes of the initial one. *)
Lemma process_audio_success_inv env file_path m md evs m' :
  process_audio env file_path m = (Ok (Succeeded md evs), m') ->
  exists m3,
    process_steps env file_path (time env (calls m)) m3
    = (Ok (Succeeded md evs), m')
    /\ files m3 = files m
    /\ fixed_attributes m3 = fixed_attributes m.
Proof.
  intros H. destruct (process_audio_inv _ _ _ _ _ H) as [m3 [Hm3 Hs]].
  exists m3.
  destruct Hs as [[result [Hs Hr]] | [e [_ Hr]]]; [| discriminate].
  injection Hr as <-. split; [exact Hs |].
  destruct Hm3 as [[_ ->] | [_ [init Hi]]]; [auto |].
  split; [exact (preserves_files_init _ _ _ _ _ Hi)
         | exact (preserves_fixed_init _ _ _ _ _ Hi)].
Qed.

(** X19.  After a success the engine is loaded: [self.pipeline] is set, so
    the next call will not initialize again. *)
Theorem success_leaves_engine_loaded (env : Env) (file_path : string)
    (m m' : Machine) (md : Metadata) (evs : list SpeechEvent) :
  process_audio env file_path m = (Ok (Succeeded md evs), m') ->
  exists p, pipeline (self m') = Some p.
Proof.
  intros H.
  destruct (process_audio_success_inv _ _ _ _ _ _ H) as [m3 [Hs _]].
  apply process_steps_success in Hs.
  destruct Hs as [audio_path [p [n [sr [v [m1 Hs]]]]]].
  destruct Hs as [_ [_ [_ [Hp [_ [_ [Hself _]]]]]]].
  exists p. now rewrite Hself.
Qed.

Lemma success_leaves_engine_loaded_witness :
  exists p,
    pipeline
      (self (snd (process_audio healthy_env "talk.wav"
                    (mkMachine (new_processor (Some "hf_token")) [] []))))
    = Some p.
Proof.
  let m := constr:(mkMachine (new_processor (Some "hf_token")) [] []) in
  let run := eval vm_compute in (process_audio healthy_env "talk.wav" m) in
  match run with
  | (Ok (Succeeded ?md ?evs), ?m') =>
      assert (E : process_audio healthy_env "talk.wav" m
                  = (Ok (Succeeded md evs), m'))
        by (vm_compute; reflexivity);
      rewrite E;
      exact (success_leaves_engine_loaded healthy_env "talk.wav" m m' md evs
               E)
  end.
Defined.

(** X20.  After a success on a video, the scratch file
    [.tmp/<stem>.wav] is not on disk. *)
Theorem success_removes_scratch (env : Env) (file_path : string)
    (m m' : Machine) (md : Metadata) (evs : list SpeechEvent) :
  process_audio env file_path m = (Ok (Succeeded md evs), m') ->
  is_video_path file_path = true ->
  ~ In (scratch_path file_path) (files m').
Proof.
  intros H Hvid.
  destruct (process_audio_success_inv _ _ _ _ _ _ H) as [m3 [Hs _]].
  apply process_steps_success in Hs.
  destruct Hs as [audio_path [p [n [sr [v [m1 Hs]]]]]].
  destruct Hs as [Hstep [_ [_ [_ [_ [_ [_ [Hfiles _]]]]]]]].
  destruct Hstep as [[Hno _] | [_ He]]; [congruence |].
  apply extract_inv in He. destruct He as [_ [_ [_ He]]].
  destruct (He audio_path eq_refl) as [-> _].
  rewrite Hfiles, Hvid. cbn [andb].
  destruct (existsb (String.eqb (scratch_path file_path)) (files m1)) eqn:Ex.
  - apply remove_In.
  - intros Hin.
    assert (Ht : existsb (String.eqb (scratch_path file_path)) (files m1)
                 = true).
    { apply existsb_exists. exists (scratch_path file_path).
      split; [exact Hin | apply String.eqb_refl]. }
    congruence.
Qed.

Lemma success_removes_scratch_witness :
  ~ In (scratch_path "clip.mp4")
      (files (snd (process_audio healthy_env "clip.mp4"
                     (mkMachine (new_processor (Some "hf_token"))
                        [".tmp/clip.wav"] [])))).
Proof.
  let m := constr:(mkMachine (new_processor (Some "hf_token"))
                     [".tmp/clip.wav"] []) in
  let run := eval vm_compute in (process_audio healthy_env "clip.mp4" m) in
  match run with
  | (Ok (Succeeded ?md ?evs), ?m') =>
      assert (E : process_audio healthy_env "clip.mp4" m
                  = (Ok (Succeeded md evs), m'))
        by (vm_compute; reflexivity);
      rewrite E;
      exact (success_removes_scratch healthy_env "clip.mp4" m m' md evs E
               eq_refl)
  end.
Defined.

Lemma preserves_files_audio_steps env file_path t :
  is_video_path file_path = false ->
  preserves files (process_steps env file_path t).
Proof.
  intros Hvid. unfold process_steps, _get_file_hash, save_results.
  fold (is_video_path file_path). rewrite Hvid. cbn [andb].
  preserving.
Qed.

(** X23.  When [ffmpeg] ends with a non-zero return code on a video,
    [process_audio] returns the failure ["ffmpeg error: " + stderr] of type
    [Exception]; the file is neither hashed nor decoded nor given to the
    engine, and whatever [ffmpeg] wrote to the scratch path stays on
    disk. *)
Theorem extraction_failure_stops_the_run (env : Env) (file_path : string)
    (m : Machine) (p : Pipeline) (run : FfmpegRun) :
  pipeline (self m) = Some p ->
  is_video_path file_path = true ->
  ffmpeg env file_path (scratch_path file_path) = Ok run ->
  returncode run <> 0%Z ->
  process_audio env file_path m
  = (Ok (Failed (String.append "ffmpeg error: " (stderr run)) "Exception"),
     mkMachine (self m)
       (if output_written run
        then scratch_path file_path :: files m
        else files m)
       (calls m ++ [Ffmpeg file_path (scratch_path file_path)])).
Proof.
  intros Hp Hvid Hff Hrc.
  unfold process_audio, bind, get_calls, try_except, get_self.
  cbv beta iota. rewrite Hp.
  unfold process_steps. fold (is_video_path file_path). rewrite Hvid.
  unfold _extract_audio_from_video, bind, call, lift, get_files, set_files,
    raise, ret.
  fold (scratch_path file_path). cbn [self files calls]. rewrite Hff.
  apply Z.eqb_neq in Hrc.
  destruct (output_written run); cbn [self files calls]; rewrite Hrc;
    reflexivity.
Qed.

Lemma extraction_failure_stops_the_run_witness :
  process_audio broken_video_env "clip.mkv"
    (mkMachine (with_pipeline (new_processor None) (Some 1%nat)) [] [])
  = (Ok (Failed (String.append "ffmpeg error: "
                   (stderr (mkFfmpegRun 1 "Invalid data found" true)))
           "Exception"),
     mkMachine (with_pipeline (new_processor None) (Some 1%nat))
       (if output_written (mkFfmpegRun 1 "Invalid data found" true)
        then scratch_path "clip.mkv" :: []
        else [])
       ([] ++ [Ffmpeg "clip.mkv" (scratch_path "clip.mkv")])).
Proof.
  apply (extraction_failure_stops_the_run broken_video_env "clip.mkv"
           (mkMachine (with_pipeline (new_processor None) (Some 1%nat)) [] [])
           1%nat (mkFfmpegRun 1 "Invalid data found" true)).
  - reflexivity.
  - vm_compute. reflexivity.
  - reflexivity.
  - discriminate.
Defined.

(** A run of the steps that raises: it raised before the clean-up, so
    nothing was removed and no report was written. *)
Lemma process_steps_raise env file_path t m e m' :
  process_steps env file_path t m = (Raise e, m') ->
  self m' = self m
  /\ (files m' = files m \/ files m' = scratch_path file_path :: files m)
  /\ exists added, calls m' = calls m ++ added /\ Forall reading_call added.
Proof.
  unfold process_steps. fold (is_video_path file_path). intros H.
  assert (Hone : forall c : Call, reading_call c ->
            exists added, calls m ++ [c] = calls m ++ added
                          /\ Forall reading_call added).
  { intros c Hc. exists [c]. auto. }
  apply bind_inv in H.
  destruct H as [[audio_path [m1 [H1 H]]] | [e1 [H1 _]]].
  2:{ destruct (is_video_path file_path); [| discriminate].
      apply extract_inv in H1. destruct H1 as [Hs [Hc [Hf _]]].
      repeat split; auto. rewrite Hc. apply Hone. exact I. }
  assert (Hpre : self m1 = self m
                 /\ (files m1 = files m
                     \/ files m1 = scratch_path file_path :: files m)
                 /\ exists added, calls m1 = calls m ++ added
                                  /\ Forall reading_call added).
  { destruct (is_video_path file_path).
    - apply extract_inv in H1. destruct H1 as [Hs [Hc [Hf _]]].
      repeat split; auto. rewrite Hc. apply Hone. exact I.
    - unfold ret in H1. injection H1 as _ <-.
      repeat split; auto. exists []. rewrite app_nil_r. auto. }
  destruct Hpre as [Hs1 [Hf1 [added1 [Hc1 Ha1]]]].
  assert (Hmore : forall l, Forall reading_call l ->
            exists added, calls m1 ++ l = calls m ++ added
                          /\ Forall reading_call added).
  { intros l Hl. exists (added1 ++ l). rewrite Hc1, app_assoc.
    split; [reflexivity | apply Forall_app; auto]. }
  apply bind_inv in H.
  destruct H as [[file_hash [m2 [H2 H]]] | [e2 [H2 _]]];
    unfold _get_file_hash in H2; apply call_then_lift_inv in H2;
    destruct H2 as [_ ->]; cbn [self files calls] in *.
  2:{ repeat split; auto. apply Hmore. repeat constructor. }
  apply bind_inv in H.
  destruct H as [[[n sr] [m3 [H3 H]]] | [e3 [H3 _]]];
    apply call_then_lift_inv in H3; destruct H3 as [_ ->];
    cbn [self files calls] in *.
  2:{ repeat split; auto. rewrite <- app_assoc. apply Hmore.
      repeat constructor. }
  destruct (sr =? 0)%Z.
  { unfold raise in H. injection H as _ <-. cbn [self files calls].
    repeat split; auto. rewrite <- app_assoc. apply Hmore.
    repeat constructor. }
  apply bind_inv in H.
  destruct H as [[s [m4 [H4 H]]] | [e4 [H4 _]]]; [| discriminate].
  unfold get_self in H4. injection H4 as <- <-. cbn [self] in H.
  apply bind_inv in H.
  destruct H as [[v [m5 [H5 H]]] | [e5 [H5 _]]].
  2:{ destruct (pipeline (self m1)) as [p |].
      - apply call_then_lift_inv in H5. destruct H5 as [_ ->].
        cbn [self files calls]. repeat split; auto.
        rewrite <- !app_assoc. apply Hmore. repeat constructor.
      - unfold raise in H5. injection H5 as _ <-. cbn [self files calls].
        repeat split; auto. rewrite <- app_assoc. apply Hmore.
        repeat constructor. }
  exfalso.
  apply bind_inv in H.
  destruct H as [[now [m6 [_ H]]] | [e6 [H6 _]]]; [| discriminate].
  apply bind_inv in H.
  destruct H as [[fs [m7 [_ H]]] | [e7 [H7 _]]]; [| discriminate].
  apply bind_inv in H.
  destruct H as [[u [m8 [_ H]]] | [e8 [H8 _]]].
  - apply bind_inv in H.
    destruct H as [[u' [m9 [_ H]]] | [e9 [H9 _]]]; discriminate.
  - destruct (is_video_path file_path && existsb (String.eqb audio_path) fs);
      discriminate.
Qed.

Lemma emits_not_a_report_init env hf_token :
  emits not_a_report (initialize_pipeline env hf_token).
Proof.
  unfold initialize_pipeline, check_model_access. emitting; exact I.
Qed.

Lemma reading_is_not_a_report (l : list Call) :
  Forall reading_call l -> Forall not_a_report l.
Proof.
  apply Forall_impl. intros c. destruct c; simpl; auto.
Qed.

(** The machine the steps start from: the initial one, or the one the
    initialization attempt left. *)
Lemma process_audio_start env m m3 :
  (pipeline (self m) <> None /\ m3 = m)
  \/ (pipeline (self m) = None
      /\ exists init, initialize_pipeline env None m = (Ok init, m3)) ->
  files m3 = files m
  /\ exists added, calls m3 = calls m ++ added /\ Forall not_a_report added.
Proof.
  intros [[_ ->] | [_ [init Hi]]].
  - split; [reflexivity |]. exists []. rewrite app_nil_r. auto.
  - split; [exact (preserves_files_init _ _ _ _ _ Hi) |].
    exact (emits_not_a_report_init _ _ _ _ _ Hi).
Qed.

(** X24.  [save_results] is called exactly on success.  Every run of
    [process_audio] either returns the success dictionary, and then its last
    outside call is the call of [save_results] for the given path
    ([WriteReport]) and there was none before; or returns the failure
    dictionary, and then [save_results] was not called at all.  Whether the
    call leaves a report on disk is up to [save_results], which swallows
    its own errors. *)
Theorem save_results_called_exactly_on_success (env : Env)
    (file_path : string)
    (m : Machine) :
  exists added,
    calls (snd (process_audio env file_path m)) = calls m ++ added
    /\ (((exists md evs,
             fst (process_audio env file_path m) = Ok (Succeeded md evs))
         /\ exists before,
              added = before ++ [WriteReport file_path]
              /\ Forall not_a_report before)
        \/ ((exists err ty,
                fst (process_audio env file_path m) = Ok (Failed err ty))
            /\ Forall not_a_report added)).
Proof.
  destruct (process_audio env file_path m) as [r m'] eqn:E.
  destruct (process_audio_inv _ _ _ _ _ E) as [m3 [Hm3 Hs]].
  destruct (process_audio_start env m m3 Hm3)
    as [_ [added0 [Hc0 Ha0]]].
  cbn [fst snd].
  destruct Hs as [[result [Hs ->]] | [e [Hs ->]]].
  - apply process_steps_success in Hs.
    destruct Hs as [audio_path [p [n [sr [v [m1 Hs]]]]]].
    destruct Hs as [Hstep [_ [_ [_ [_ [Hr [_ [_ Hcalls]]]]]]]].
    cbv zeta in Hr.
    assert (H1 : exists added1, calls m1 = calls m3 ++ added1
                                /\ Forall not_a_report added1).
    { destruct Hstep as [[_ [_ ->]] | [_ He]].
      - exists []. rewrite app_nil_r. auto.
      - apply extract_inv in He. destruct He as [_ [Hc _]].
        eexists. split; [exact Hc |]. repeat constructor. }
    destruct H1 as [added1 [Hc1 Ha1]].
    set (removal := if is_video_path file_path
                       && existsb (String.eqb audio_path) (files m1)
                    then [OsRemove audio_path] else []) in *.
    exists (added0 ++ added1
            ++ ([HashFile file_path; SfRead audio_path; Infer p audio_path]
                ++ removal)
            ++ [WriteReport file_path]).
    split.
    + rewrite Hcalls, Hc1, Hc0. rewrite <- !app_assoc. reflexivity.
    + left. split; [rewrite Hr; eauto |].
      exists (added0 ++ added1
              ++ [HashFile file_path; SfRead audio_path; Infer p audio_path]
              ++ removal).
      split; [rewrite <- !app_assoc; reflexivity |].
      repeat (apply Forall_app; split); auto.
      * repeat constructor.
      * unfold removal.
        destruct (is_video_path file_path
                  && existsb (String.eqb audio_path) (files m1));
          repeat constructor.
  - apply process_steps_raise in Hs.
    destruct Hs as [_ [_ [added1 [Hc1 Ha1]]]].
    exists (added0 ++ added1). split.
    + rewrite Hc1, Hc0, app_assoc. reflexivity.
    + right. split; [eauto |].
      apply Forall_app. split; [exact Ha0 |].
      apply reading_is_not_a_report. exact Ha1.
Qed.

(** ** The scratch path is never the input *)

Lemma list_ascii_of_string_app (a b : string) :
  list_ascii_of_string (String.append a b)
  = list_ascii_of_string a ++ list_ascii_of_string b.
Proof.
  induction a as [| c a IH]; simpl; [reflexivity | now rewrite IH].
Qed.

Lemma rsplit_absent (c : ascii) (l : list ascii) :
  ~ In c l -> rsplit c l = None.
Proof.
  induction l as [| x l IH]; simpl; intros H; [reflexivity |].
  rewrite IH by tauto.
  destruct (Ascii.eqb x c) eqn:E; [| reflexivity].
  apply Ascii.eqb_eq in E. tauto.
Qed.

Lemma rsplit_last_occurrence (c : ascii) (l2 : list ascii) :
  ~ In c l2 ->
  forall l1, rsplit c (l1 ++ c :: l2) = Some (l1, c :: l2).
Proof.
  intros H. induction l1 as [| x l1 IH]; simpl.
  - rewrite rsplit_absent by exact H. now rewrite Ascii.eqb_refl.
  - now rewrite IH.
Qed.

Lemma rsplit_app_absent (c : ascii) (l2 : list ascii) :
  ~ In c l2 ->
  forall l1,
    rsplit c (l1 ++ l2)
    = match rsplit c l1 with
      | Some (a, b) => Some (a, b ++ l2)
      | None => None
      end.
Proof.
  intros H. induction l1 as [| x l1 IH]; simpl.
  - apply rsplit_absent. exact H.
  - rewrite IH. destruct (rsplit c l1) as [[a b] |]; [reflexivity |].
    destruct (Ascii.eqb x c); reflexivity.
Qed.

Lemma rsplit_starts_with (c : ascii) (l : list ascii) :
  forall a b, rsplit c l = Some (a, b) -> exists t, b = c :: t.
Proof.
  induction l as [| x l IH]; simpl; intros a b H; [discriminate |].
  destruct (rsplit c l) as [[a' b'] |].
  - injection H as <- <-. eapply IH. reflexivity.
  - destruct (Ascii.eqb x c) eqn:E; [| discriminate].
    apply Ascii.eqb_eq in E. injection H as <- <-. subst. eauto.
Qed.

(** A path that ends in [".wav"] has suffix [".wav"], or none when its name
    is just [".wav"]. *)
Lemma suffix_of_wav (p : string) :
  path_suffix (String.append p ".wav") = ".wav"
  \/ path_suffix (String.append p ".wav") = EmptyString.
Proof.
  unfold path_suffix. rewrite list_ascii_of_string_app.
  set (l := list_ascii_of_string p).
  change (list_ascii_of_string ".wav")
    with ("."%char :: ["w"; "a"; "v"]%char).
  assert (Hname : exists nm,
             path_name (l ++ "."%char :: ["w"; "a"; "v"]%char)
             = nm ++ "."%char :: ["w"; "a"; "v"]%char).
  { unfold path_name.
    rewrite (rsplit_app_absent "/"%char ("."%char :: ["w"; "a"; "v"]%char)).
    2:{ simpl. intros [H | [H | [H | [H | []]]]]; discriminate. }
    destruct (rsplit "/"%char l) as [[a b] |] eqn:E.
    - destruct (rsplit_starts_with _ _ _ _ E) as [t ->].
      exists t. reflexivity.
    - exists l. reflexivity. }
  destruct Hname as [nm ->].
  unfold split_ext.
  rewrite (rsplit_last_occurrence "."%char ["w"; "a"; "v"]%char).
  2:{ simpl. intros [H | [H | [H | []]]]; discriminate. }
  destruct nm as [| x nm]; simpl; auto.
Qed.

Lemma scratch_is_not_a_video (video_path : string) :
  is_video_path (scratch_path video_path) = false.
Proof.
  unfold is_video_path, scratch_path.
  assert (E : String.append ".tmp/"
                (String.append (path_stem video_path) ".wav")
              = String.append
                  (String.append ".tmp/" (path_stem video_path)) ".wav").
  { simpl. reflexivity. }
  rewrite E.
  destruct (suffix_of_wav (String.append ".tmp/" (path_stem video_path)))
    as [-> | ->]; reflexivity.
Qed.

(** X25.  [process_audio] removes no file but the scratch file: every file
    that was on disk, other than [.tmp/<stem>.wav], is still there
    afterwards, whatever the outcome.  In particular the input file is never
    removed. *)
Theorem only_the_scratch_file_is_removed (env : Env) (file_path : string)
    (m : Machine) :
  (forall f,
      In f (files m) -> f <> scratch_path file_path ->
      In f (files (snd (process_audio env file_path m))))
  /\ (In file_path (files m) ->
      In file_path (files (snd (process_audio env file_path m)))).
Proof.
  destruct (process_audio env file_path m) as [r m'] eqn:E.
  destruct (process_audio_inv _ _ _ _ _ E) as [m3 [Hm3 Hs]].
  destruct (process_audio_start env m m3 Hm3) as [Hf3 _].
  cbn [snd].
  assert (Hfiles :
    (is_video_path file_path = false /\ files m' = files m)
    \/ (is_video_path file_path = true
        /\ forall f, In f (files m) -> f <> scratch_path file_path ->
                     In f (files m'))).
  { destruct Hs as [[result [Hs _]] | [e [Hs _]]].
    - apply process_steps_success in Hs.
      destruct Hs as [audio_path [p [n [sr [v [m1 Hs]]]]]].
      destruct Hs as [Hstep [_ [_ [_ [_ [_ [_ [Hfiles _]]]]]]]].
      destruct Hstep as [[Hvid [_ ->]] | [Hvid He]].
      + left. split; [exact Hvid |]. rewrite Hfiles, Hvid. cbn [andb].
        exact Hf3.
      + right. split; [exact Hvid |]. intros f Hin Hne.
        apply extract_inv in He. destruct He as [_ [_ [Hf1 He]]].
        destruct (He audio_path eq_refl) as [-> _].
        assert (Hin1 : In f (files m1)).
        { destruct Hf1 as [-> | ->]; [| right]; now rewrite Hf3. }
        rewrite Hfiles.
        destruct (is_video_path file_path
                  && existsb (String.eqb (scratch_path file_path))
                       (files m1)); [| exact Hin1].
        apply in_in_remove; assumption.
    - apply process_steps_raise in Hs. destruct Hs as [_ [Hf _]].
      destruct (is_video_path file_path) eqn:Hvid.
      + right. split; [reflexivity |]. intros f Hin _.
        destruct Hf as [-> | ->]; [| right]; now rewrite Hf3.
      + left. split; [reflexivity |].
        destruct (process_audio_inv _ _ _ _ _ E) as [m4 [Hm4 Hs4]].
        pose proof (preserves_files_audio_steps env file_path
                      (time env (calls m)) Hvid) as Hp.
        destruct (process_audio_start env m m4 Hm4) as [Hf4 _].
        rewrite <- Hf4.
        destruct Hs4 as [[result [Hs4 _]] | [e4 [Hs4 _]]];
          exact (Hp _ _ _ Hs4). }
  split.
  - intros f Hin Hne.
    destruct Hfiles as [[_ ->] | [_ H]]; auto.
  - intros Hin.
    destruct Hfiles as [[_ ->] | [Hvid H]]; [exact Hin |].
    apply H; [exact Hin |].
    intros Heq.
    pose proof (scratch_is_not_a_video file_path) as Hs'.
    rewrite <- Heq in Hs'. congruence.
Qed.

Lemma only_the_scratch_file_is_removed_witness :
  In "clip.mp4"
    (files (snd (process_audio undecodable_env "clip.mp4"
                   (mkMachine (new_processor (Some "hf_token"))
                      ["clip.mp4"; ".tmp/clip.wav"] [])))).
Proof.
  apply (proj2 (only_the_scratch_file_is_removed undecodable_env "clip.mp4"
                  (mkMachine (new_processor (Some "hf_token"))
                     ["clip.mp4"; ".tmp/clip.wav"] []))).
  simpl. auto.
Defined.

(** ** [TokenManager] *)

Lemma load_token_cases (src : TokenSources) (tm tm' : TokenManager) :
  _load_token src tm = (Ok tt, tm') ->
  (exists c t, tm' = mkTokenManager (Some (String c t))
                       (Some "streamlit_secrets"))
  \/ (exists c t, tm' = mkTokenManager (Some (String c t))
                          (Some "environment"))
  \/ tm' = mkTokenManager None None.
Proof.
  unfold _load_token.
  destruct (if has_secrets src then secrets_get src "HF_TOKEN" else Ok None)
    as [secret | e]; [| discriminate].
  destruct secret as [[| c t] |]; cbn [truthy].
  2:{ intros H. injection H as <-. left. eauto. }
  all: destruct (environ_get src "HUGGINGFACE_HUB_TOKEN") as [[| c t] |];
    cbn [truthy]; intros H; injection H as <-; eauto.
Qed.

(** X26.  After [_load_token] the manager is consistent: the token is
    [None] or a non-empty string, never the empty string; [token_source] is
    [None] exactly when the token is; and in [get_token_status],
    [available] is true exactly when there is a token and [length] is 0
    exactly when there is none. *)
Theorem token_status_is_consistent (src : TokenSources)
    (tm tm' : TokenManager) :
  _load_token src tm = (Ok tt, tm') ->
  tm_token tm' <> Some EmptyString
  /\ (token_source tm' = None <-> tm_token tm' = None)
  /\ (dict_get (get_token_status tm') "available" PyNone = PyBool true
      <-> tm_token tm' <> None)
  /\ (dict_get (get_token_status tm') "length" PyNone = PyInt 0
      <-> tm_token tm' = None).
Proof.
  intros H.
  destruct (load_token_cases src tm tm' H)
    as [[c [t ->]] | [[c [t ->]] | ->]];
    cbn; repeat split; try discriminate; try congruence; intros E;
    try discriminate; try congruence.
  all: try (injection E as E; lia).
Qed.

Lemma token_status_is_consistent_witness :
  tm_token (mkTokenManager (Some "hf_env") (Some "environment"))
  <> Some EmptyString.
Proof.
  apply (token_status_is_consistent
           (mkTokenSources true (fun _ => Ok (Some EmptyString))
              (fun _ => Some "hf_env"))
           (mkTokenManager None None)
           (mkTokenManager (Some "hf_env") (Some "environment"))).
  reflexivity.
Defined.

(** X27.  The secrets entry wins: when the secrets lookup gives a non-empty
    token, that token is taken with source ["streamlit_secrets"], whatever
    the environment holds.  And the lookup is not guarded: when it raises,
    [_load_token] raises too, the environment variable is not consulted and
    the manager keeps its previous token. *)
Theorem secrets_come_first (src : TokenSources) (tm : TokenManager) :
  has_secrets src = true ->
  (forall c t,
      secrets_get src "HF_TOKEN" = Ok (Some (String c t)) ->
      _load_token src tm
      = (Ok tt, mkTokenManager (Some (String c t))
                  (Some "streamlit_secrets")))
  /\ (forall e,
         secrets_get src "HF_TOKEN" = Raise e ->
         _load_token src tm = (Raise e, tm)
         /\ refresh_token src tm = (Raise e, tm)).
Proof.
  intros Hs. unfold refresh_token, _load_token. rewrite Hs. split.
  - intros c t ->. reflexivity.
  - intros e ->. auto.
Qed.

Lemma secrets_come_first_witness :
  _load_token
    (mkTokenSources true (fun _ => Ok (Some "hf_secret"))
       (fun _ => Some "hf_env"))
    (mkTokenManager None None)
  = (Ok tt, mkTokenManager (Some "hf_secret") (Some "streamlit_secrets")).
Proof.
  apply (proj1 (secrets_come_first
                  (mkTokenSources true (fun _ => Ok (Some "hf_secret"))
                     (fun _ => Some "hf_env"))
                  (mkTokenManager None None) eq_refl)).
  reflexivity.
Defined.

Lemma option_string_neq_refl (a : option string) :
  option_string_neq a a = false.
Proof.
  destruct a as [s |]; simpl; [| reflexivity].
  now rewrite String.eqb_refl.
Qed.

(** X28.  Loading does not depend on what the manager held, so refreshing
    from unchanged sources reports no change and changes nothing: if
    [_load_token] gave the manager [tm], then [refresh_token] on [tm]
    returns [False] and leaves [tm]. *)
Theorem refresh_without_change (src : TokenSources)
    (tm0 tm : TokenManager) :
  _load_token src tm0 = (Ok tt, tm) ->
  refresh_token src tm = (Ok false, tm).
Proof.
  intros H. unfold refresh_token.
  assert (E : _load_token src tm = (Ok tt, tm)).
  { revert H. unfold _load_token.
    destruct (if has_secrets src then secrets_get src "HF_TOKEN"
              else Ok None) as [secret | e]; [| discriminate].
    destruct (truthy secret); [auto |].
    destruct (truthy (environ_get src "HUGGINGFACE_HUB_TOKEN")); auto. }
  rewrite E. now rewrite option_string_neq_refl.
Qed.

Lemma refresh_without_change_witness :
  refresh_token
    (mkTokenSources false (fun _ => Ok None) (fun _ => Some "hf_env"))
    (mkTokenManager (Some "hf_env") (Some "environment"))
  = (Ok false, mkTokenManager (Some "hf_env") (Some "environment")).
Proof.
  apply (refresh_without_change
           (mkTokenSources false (fun _ => Ok None) (fun _ => Some "hf_env"))
           (mkTokenManager None None)).
  reflexivity.
Defined.

(** ** The health button *)

(** X30.  The health button never sends the resolved token to the hub.  Its
    status dictionary has no ["token"] entry, so the access check is made
    with the empty string.  When the token sources raise, the button raises
    and nothing is called.  Otherwise the check is made exactly when a token
    is available: with a token, the button makes the one call of
    [check_model_access] for the default model with token [""] and nothing
    else, and [model_accessible] is the ["success"] of its answer; without a
    token it calls nothing and [model_accessible] is [False]. *)
Theorem health_button_probes_without_token (src : TokenSources)
    (probe : TorchProbe) (env : Env) (m : Machine) :
  (forall e tm,
      TokenManager_init src = (Raise e, tm) ->
      ui_check_health src probe env m = (Raise e, m))
  /\ (forall tm,
         TokenManager_init src = (Ok tt, tm) ->
         truthy (tm_token tm) = true ->
         exists a m1,
           check_model_access env "pyannote/voice-activity-detection"
             EmptyString m
           = (Ok a, m1)
           /\ snd (ui_check_health src probe env m) = m1
           /\ calls m1
              = calls m ++ [HubDownload "pyannote/voice-activity-detection"
                              EmptyString]
           /\ forall h,
                fst (ui_check_health src probe env m) = Ok h ->
                ui_token_available h = PyBool true
                /\ model_accessible h = success a)
  /\ (forall tm,
         TokenManager_init src = (Ok tt, tm) ->
         truthy (tm_token tm) = false ->
         snd (ui_check_health src probe env m) = m
         /\ forall h,
              fst (ui_check_health src probe env m) = Ok h ->
              ui_token_available h = PyBool false
              /\ model_accessible h = false).
Proof.
  split; [| split].
  - intros e tm E. unfold ui_check_health, bind. rewrite E. reflexivity.
  - intros tm E Htok. unfold ui_check_health, bind. rewrite E.
    cbn [get_token_status dict_get String.eqb Ascii.eqb Bool.eqb py_truth
         py_str].
    rewrite Htok.
    destruct (check_model_access_run env
                "pyannote/voice-activity-detection" EmptyString m)
      as [a [Ea _]].
    exists a. eexists. split; [exact Ea |].
    unfold bind. rewrite Ea. unfold ret, lift. cbn [self files calls].
    destruct (get_torch_device probe); cbn [fst snd].
    + split; [reflexivity |]. split; [reflexivity |].
      intros h H. injection H as <-. split; reflexivity.
    + split; [reflexivity |]. split; [reflexivity |].
      intros h H. discriminate.
  - intros tm E Htok. unfold ui_check_health, bind. rewrite E.
    cbn [get_token_status dict_get String.eqb Ascii.eqb Bool.eqb py_truth
         py_str].
    rewrite Htok. unfold ret, lift.
    destruct (get_torch_device probe); cbn [fst snd].
    + split; [reflexivity |].
      intros h H. injection H as <-. split; reflexivity.
    + split; [reflexivity |]. intros h H. discriminate.
Qed.

(** A token in the environment, a hub that accepts any token: the button
    asks the hub with the empty string and reports the model accessible. *)
Lemma health_button_probes_without_token_witness :
  exists a m1,
    check_model_access healthy_env "pyannote/voice-activity-detection"
      EmptyString (mkMachine (new_processor None) [] [])
    = (Ok a, m1)
    /\ snd (ui_check_health
              (mkTokenSources false (fun _ => Ok None) (fun _ => Some "hf_env"))
              (mkTorchProbe (Ok tt) (Ok false) (Ok false)) healthy_env
              (mkMachine (new_processor None) [] []))
       = m1
    /\ calls m1
       = calls (mkMachine (new_processor None) [] [])
         ++ [HubDownload "pyannote/voice-activity-detection" EmptyString]
    /\ forall h,
         fst (ui_check_health
                (mkTokenSources false (fun _ => Ok None)
                   (fun _ => Some "hf_env"))
                (mkTorchProbe (Ok tt) (Ok false) (Ok false)) healthy_env
                (mkMachine (new_processor None) [] []))
         = Ok h ->
         ui_token_available h = PyBool true
         /\ model_accessible h = success a.
Proof.
  apply (proj1 (proj2 (health_button_probes_without_token
                         (mkTokenSources false (fun _ => Ok None)
                            (fun _ => Some "hf_env"))
                         (mkTorchProbe (Ok tt) (Ok false) (Ok false))
                         healthy_env
                         (mkMachine (new_processor None) [] [])))
           (mkTokenManager (Some "hf_env") (Some "environment"))).
  - reflexivity.
  - reflexivity.
Defined.

(** * Properties of the binary64 embedding *)

Import PrimFloat SpecFloat FloatOps.

(** ** Comparisons of floats *)

Lemma SFcompare_antisym (f1 f2 : spec_float) :
  SFcompare f2 f1 = option_map CompOpp (SFcompare f1 f2).
Proof.
  destruct f1 as [s1 | s1 | | s1 m1 e1], f2 as [s2 | s2 | | s2 m2 e2];
    simpl; try reflexivity;
    try (destruct s1; reflexivity); try (destruct s2; reflexivity);
    try (destruct s1, s2; reflexivity).
  pose proof (Pos.compare_cont_antisym m1 m2 Eq) as Hm. simpl in Hm.
  destruct s1, s2; simpl; try reflexivity;
    rewrite (Z.compare_antisym e1 e2);
    destruct (e1 ?= e2)%Z; simpl; try reflexivity;
    rewrite <- Hm;
    destruct (Pos.compare_cont Eq m1 m2); reflexivity.
Qed.

(** [x == y] gives [x <= y]. *)
Lemma float_eqb_leb (x y : float) :
  (x =? y)%float = true -> (x <=? y)%float = true.
Proof.
  rewrite FloatAxioms.eqb_spec, FloatAxioms.leb_spec. unfold SFeqb, SFleb.
  destruct (SFcompare (Prim2SF x) (Prim2SF y)) as [[| |] |];
    intros H; try discriminate; reflexivity.
Qed.

(** [x == y] excludes [x < y]. *)
Lemma float_eqb_not_ltb (x y : float) :
  (x =? y)%float = true -> (x <? y)%float = false.
Proof.
  rewrite FloatAxioms.eqb_spec, FloatAxioms.ltb_spec. unfold SFeqb, SFltb.
  destruct (SFcompare (Prim2SF x) (Prim2SF y)) as [[| |] |];
    intros H; try discriminate; reflexivity.
Qed.

(** [x < y] excludes [y <= x]. *)
Lemma float_ltb_not_leb (x y : float) :
  (x <? y)%float = true -> (y <=? x)%float = false.
Proof.
  rewrite FloatAxioms.ltb_spec, FloatAxioms.leb_spec. unfold SFltb, SFleb.
  rewrite (SFcompare_antisym (Prim2SF x) (Prim2SF y)).
  destruct (SFcompare (Prim2SF x) (Prim2SF y)) as [[| |] |];
    intros H; try discriminate; reflexivity.
Qed.

(** ** The two loops as list functions *)

Lemma filter_pad_loop_kept (cfg : Binary64.Config) (D : float)
    (segments : list Binary64.Segment) :
  forall processed,
    Binary64.filter_pad_loop cfg D segments processed
    = processed ++ Binary64.kept_and_padded cfg D segments.
Proof.
  unfold Binary64.kept_and_padded.
  induction segments as [| s rest IH]; intros processed; simpl.
  - now rewrite app_nil_r.
  - destruct (Binary64.too_short cfg s); simpl.
    + apply IH.
    + rewrite IH, <- app_assoc. reflexivity.
Qed.

Lemma merge_loop_append (cfg : Binary64.Config)
    (r1 r2 : list Binary64.Segment) :
  forall merged current,
    Binary64.merge_loop cfg (r1 ++ r2) merged current
    = (let (m, c) := Binary64.merge_loop cfg r1 merged current in
       Binary64.merge_loop cfg r2 m c).
Proof.
  induction r1 as [| n r1 IH]; intros merged current; simpl.
  - reflexivity.
  - destruct (Binary64.close_enough cfg current n); apply IH.
Qed.


(** ** The duration filter *)

(** C8.  The first loop keeps, in order, exactly the intervals for which
    the test [end - start < min_duration_s] is false, [end - start] being
    the binary64 difference the code computes, and pads them.  An interval
    whose computed length equals [min_duration_s] comes out of the
    post-processor; one whose computed length is below [min_duration_s]
    does not. *)
Theorem short_intervals_are_dropped_exactly (cfg : Binary64.Config)
    (D : float) :
  (forall segments,
      Binary64.filter_pad_loop cfg D segments []
      = map (Binary64.with_margins cfg D)
          (filter
             (fun s =>
                negb (Binary64.end_ s - Binary64.start s
                      <? Binary64.min_duration_s cfg)%float)
             segments))
  /\ (forall s,
         (Binary64.end_ s - Binary64.start s
          =? Binary64.min_duration_s cfg)%float = true ->
         Binary64._post_process_segments cfg [s] D
         = [Binary64.with_margins cfg D s])
  /\ (forall s,
         (Binary64.end_ s - Binary64.start s
          <? Binary64.min_duration_s cfg)%float = true ->
         Binary64._post_process_segments cfg [s] D = []).
Proof.
  split; [| split].
  - intros segments. rewrite filter_pad_loop_kept. reflexivity.
  - intros s Hlen. apply float_eqb_not_ltb in Hlen.
    unfold Binary64._post_process_segments. simpl.
    unfold Binary64.too_short. rewrite Hlen. simpl.
    now destruct (0 <? Binary64.merge_gap_s cfg)%float.
  - intros s Hlen. unfold Binary64._post_process_segments. simpl.
    unfold Binary64.too_short. now rewrite Hlen.
Qed.

(** With the default configuration ([min_duration_s = 0.3]): the interval
    [(0.05, 0.35)], whose computed length [0.35 - 0.05] is the float [0.3],
    is kept; [(0.05, 0.34)] is dropped. *)
Lemma short_intervals_are_dropped_exactly_witness :
  Binary64._post_process_segments Binary64.default_config
    [Binary64.mkSegment 0.05 0.35] 10
  = [Binary64.with_margins Binary64.default_config 10
       (Binary64.mkSegment 0.05 0.35)]
  /\ Binary64._post_process_segments Binary64.default_config
       [Binary64.mkSegment 0.05 0.34] 10
     = [].
Proof.
  split.
  - apply (proj1 (proj2 (short_intervals_are_dropped_exactly
                           Binary64.default_config 10))).
    vm_compute. reflexivity.
  - apply (proj2 (proj2 (short_intervals_are_dropped_exactly
                           Binary64.default_config 10))).
    vm_compute. reflexivity.
Defined.

Lemma every_test_true_gives_nil (cfg : Binary64.Config)
    (segments : list Binary64.Segment) (D : float) :
  Forall (fun s =>
            (Binary64.end_ s - Binary64.start s
             <? Binary64.min_duration_s cfg)%float = true)
    segments ->
  Binary64._post_process_segments cfg segments D = [].
Proof.
  intros H. unfold Binary64._post_process_segments.
  rewrite filter_pad_loop_kept. simpl. unfold Binary64.kept_and_padded.
  induction H as [| s rest Hs _ IH]; simpl; [reflexivity |].
  unfold Binary64.too_short at 1. rewrite Hs. exact IH.
Qed.


(** ** The merge step *)

(** C7.  With [merge_gap_s > 0], let the merge of a list end with the
    accumulated interval [cur].  Feeding one more interval [next]: the two
    are coalesced exactly when the test
    [next.start - cur.end <= merge_gap_s] holds of the binary64 difference
    the code computes, and then the accumulated interval becomes
    [(cur.start, next.end)]; otherwise [cur] is closed and [next] starts a
    new interval.  In particular a computed gap equal to [merge_gap_s]
    merges and a computed gap above [merge_gap_s] does not. *)
Theorem merge_follows_the_computed_gap (cfg : Binary64.Config)
    (l ms : list Binary64.Segment) (cur next : Binary64.Segment) :
  (0 <? Binary64.merge_gap_s cfg)%float = true ->
  Binary64.merge_block cfg l = ms ++ [cur] ->
  ((Binary64.start next - Binary64.end_ cur
    <=? Binary64.merge_gap_s cfg)%float = true ->
   Binary64.merge_block cfg (l ++ [next])
   = ms ++ [Binary64.mkSegment (Binary64.start cur) (Binary64.end_ next)])
  /\ ((Binary64.start next - Binary64.end_ cur
       <=? Binary64.merge_gap_s cfg)%float = false ->
      Binary64.merge_block cfg (l ++ [next]) = ms ++ [cur; next])
  /\ ((Binary64.start next - Binary64.end_ cur
       =? Binary64.merge_gap_s cfg)%float = true ->
      Binary64.merge_block cfg (l ++ [next])
      = ms ++ [Binary64.mkSegment (Binary64.start cur) (Binary64.end_ next)])
  /\ ((Binary64.merge_gap_s cfg
       <? Binary64.start next - Binary64.end_ cur)%float = true ->
      Binary64.merge_block cfg (l ++ [next]) = ms ++ [cur; next]).
Proof.
  intros Hgap Hl.
  assert (Hyes :
    (Binary64.start next - Binary64.end_ cur
     <=? Binary64.merge_gap_s cfg)%float = true ->
    Binary64.merge_block cfg (l ++ [next])
    = ms ++ [Binary64.mkSegment (Binary64.start cur) (Binary64.end_ next)]).
  { intros Hcmp. destruct l as [| first rest].
    - simpl in Hl. destruct ms; discriminate.
    - unfold Binary64.merge_block in Hl |- *. simpl app.
      rewrite Hgap in Hl |- *. rewrite merge_loop_append.
      destruct (Binary64.merge_loop cfg rest [] first) as [m c].
      apply app_inj_tail in Hl. destruct Hl as [-> ->]. simpl.
      unfold Binary64.close_enough. now rewrite Hcmp. }
  assert (Hno :
    (Binary64.start next - Binary64.end_ cur
     <=? Binary64.merge_gap_s cfg)%float = false ->
    Binary64.merge_block cfg (l ++ [next]) = ms ++ [cur; next]).
  { intros Hcmp. destruct l as [| first rest].
    - simpl in Hl. destruct ms; discriminate.
    - unfold Binary64.merge_block in Hl |- *. simpl app.
      rewrite Hgap in Hl |- *. rewrite merge_loop_append.
      destruct (Binary64.merge_loop cfg rest [] first) as [m c].
      apply app_inj_tail in Hl. destruct Hl as [-> ->]. simpl.
      unfold Binary64.close_enough. rewrite Hcmp.
      simpl. rewrite <- app_assoc. reflexivity. }
  split; [exact Hyes |]. split; [exact Hno |]. split.
  - intros Heq. apply Hyes. apply float_eqb_leb. exact Heq.
  - intros Hlt. apply Hno. apply float_ltb_not_leb. exact Hlt.
Qed.

(** With [merge_gap_s = 0.2]: after [(0, 0.08)], the interval [(0.28, 0.5)]
    is merged, the computed gap [0.28 - 0.08] being the float [0.2]; the
    interval [(0.29, 0.5)] is not. *)
Lemma merge_follows_the_computed_gap_witness :
  Binary64.merge_block Binary64.default_config
    ([Binary64.mkSegment 0 0.08] ++ [Binary64.mkSegment 0.28 0.5])
  = [] ++ [Binary64.mkSegment 0 0.5]
  /\ Binary64.merge_block Binary64.default_config
       ([Binary64.mkSegment 0 0.08] ++ [Binary64.mkSegment 0.29 0.5])
     = [] ++ [Binary64.mkSegment 0 0.08; Binary64.mkSegment 0.29 0.5].
Proof.
  split.
  - apply (proj1 (proj2 (proj2
             (merge_follows_the_computed_gap Binary64.default_config
                [Binary64.mkSegment 0 0.08] []
                (Binary64.mkSegment 0 0.08) (Binary64.mkSegment 0.28 0.5)
                eq_refl eq_refl)))).
    vm_compute. reflexivity.
  - apply (proj2 (proj2 (proj2
             (merge_follows_the_computed_gap Binary64.default_config
                [Binary64.mkSegment 0 0.08] []
                (Binary64.mkSegment 0 0.08) (Binary64.mkSegment 0.29 0.5)
                eq_refl eq_refl)))).
    vm_compute. reflexivity.
Defined.

(** What the two tests see is the rounded difference, which can differ from
    the exact difference of the same two floats in the last place.  The
    interval [(0.05, 0.35)] passes the duration test with
    [min_duration_s = 0.3] although the exact difference of its bounds is
    below the float [0.3]; after [(0, 0.08)], the interval [(0.28, 0.5)]
    passes the merge test with [merge_gap_s = 0.2] although the exact
    difference [0.28 - 0.08] of the two floats is above the float [0.2]. *)
Remark the_tests_see_the_rounded_difference :
  (Binary64.exact 0.35 - Binary64.exact 0.05 < Binary64.exact 0.3)%Q
  /\ Binary64.too_short Binary64.default_config (Binary64.mkSegment 0.05 0.35)
     = false
  /\ (Binary64.exact 0.2 < Binary64.exact 0.28 - Binary64.exact 0.08)%Q
  /\ Binary64.close_enough Binary64.default_config
       (Binary64.mkSegment 0 0.08) (Binary64.mkSegment 0.28 0.5)
     = true.
Proof. repeat split; vm_compute; reflexivity. Qed.
(** ** Reasoning about the binary64 computations *)

Lemma steps_bind_ok {A B : Type} (c : Binary64.M A) (k : A -> Binary64.M B)
    (m m' : Binary64.Machine) (b : B) :
  Binary64.bind c k m = (Ok b, m') ->
  exists a m1, c m = (Ok a, m1) /\ k a m1 = (Ok b, m').
Proof.
  unfold Binary64.bind. destruct (c m) as [[a | e] m1]; intros H.
  - exists a, m1. auto.
  - discriminate.
Qed.

Lemma unchanged_bind {A B X : Type} (f : Binary64.Machine -> X)
    (c : Binary64.M A) (k : A -> Binary64.M B) :
  Binary64.preserves f c -> (forall a, Binary64.preserves f (k a)) ->
  Binary64.preserves f (Binary64.bind c k).
Proof.
  intros Hc Hk m r m2. unfold Binary64.bind.
  destruct (c m) as [[a | e] m1] eqn:E; intros H.
  - rewrite (Hk a _ _ _ H). eapply Hc; eauto.
  - injection H as <- <-. eapply Hc; eauto.
Qed.

Lemma unchanged_try {A X : Type} (f : Binary64.Machine -> X)
    (body : Binary64.M A) (handler : Exn -> Binary64.M A) :
  Binary64.preserves f body ->
  (forall e, Binary64.preserves f (handler e)) ->
  Binary64.preserves f (Binary64.try_except body handler).
Proof.
  intros Hb Hh m r m2. unfold Binary64.try_except.
  destruct (body m) as [[a | e] m1] eqn:E; intros H.
  - injection H as <- <-. eapply Hb; eauto.
  - rewrite (Hh e _ _ _ H). eapply Hb; eauto.
Qed.

Lemma unchanged_step {A X : Type} (f : Binary64.Machine -> X)
    (c : Binary64.M A) :
  (forall m, f (snd (c m)) = f m) -> Binary64.preserves f c.
Proof.
  intros H m r m1 E. specialize (H m). now rewrite E in H.
Qed.

(** Discharges [Binary64.preserves] goals by following the structure of the
    computation. *)
Ltac unchanged :=
  repeat first
    [ apply unchanged_bind; [| intros ?]
    | apply unchanged_try; [| intros ?]
    | apply unchanged_step; reflexivity
    | match goal with
      | |- Binary64.preserves _ (if ?b then _ else _) => destruct b
      | |- Binary64.preserves _ (match ?x with _ => _ end) => destruct x
      | |- Binary64.preserves _ (let (_, _) := ?x in _) => destruct x
      | |- Binary64.preserves _ (let _ := _ in _) => cbv zeta
      end ].

Lemma unchanged_fixed_init env hf_token :
  Binary64.preserves Binary64.fixed_attributes
    (Binary64.initialize_pipeline env hf_token).
Proof.
  unfold Binary64.initialize_pipeline, Binary64.check_model_access.
  unchanged.
Qed.

Lemma unchanged_self_extract env video_path :
  Binary64.preserves Binary64.self
    (Binary64._extract_audio_from_video env video_path).
Proof. unfold Binary64._extract_audio_from_video. unchanged. Qed.

Lemma call_then_lift_result {A : Type} (c : Call) (r : res A)
    (m m' : Binary64.Machine) (out : res A) :
  Binary64.bind (Binary64.call c) (fun _ => Binary64.lift r) m = (out, m') ->
  out = r
  /\ m' = Binary64.mkMachine (Binary64.self m) (Binary64.files m)
            (Binary64.calls m ++ [c]).
Proof.
  unfold Binary64.bind, Binary64.call, Binary64.lift. simpl.
  intros H. now injection H as <- <-.
Qed.

(** ** [process_audio] on binary64 numbers *)

(** A run of the steps that returns: what was read and what is returned. *)
Lemma process_steps_returns env file_path t m r m' :
  Binary64.process_steps env file_path t m = (Ok r, m') ->
  exists audio_path p n sr v m1,
    Binary64.self m1 = Binary64.self m
    /\ Binary64.sf_read env audio_path = Ok (n, sr)
    /\ sr <> 0%Z
    /\ Binary64.pipeline (Binary64.self m) = Some p
    /\ Binary64.infer env p audio_path = Ok v
    /\ (let D := (Binary64.float_of_int n / Binary64.float_of_int sr)%float in
        let evs :=
          map Binary64.speech_event
            (Binary64._post_process_segments
               (Binary64.config (Binary64.self m))
               (Binary64.timeline_segments v) D) in
        let elapsed :=
          (Binary64.time env
             (Binary64.calls m1
              ++ [HashFile file_path; SfRead audio_path; Infer p audio_path])
           - t)%float in
        r = Binary64.Succeeded
              (Binary64.mkMetadata file_path
                 (if Binary64.is_video_path env file_path
                  then "video" else "audio")
                 (Binary64.round3 D) "vad"
                 (Binary64.model_id (Binary64.self m))
                 (Binary64.device_str (Binary64.self m))
                 (Binary64.round3 elapsed)
                 (Binary64.round3
                    (if (0 <? D)%float then (elapsed / D)%float else 0%float))
                 (List.length evs) (Binary64.config (Binary64.self m)))
              evs).
Proof.
  unfold Binary64.process_steps.
  fold (Binary64.is_video_path env file_path). intros H.
  apply steps_bind_ok in H. destruct H as [audio_path [m1 [H1 H]]].
  assert (Hself1 : Binary64.self m1 = Binary64.self m).
  { destruct (Binary64.is_video_path env file_path).
    - exact (unchanged_self_extract _ _ _ _ _ H1).
    - unfold Binary64.ret in H1. now injection H1 as _ <-. }
  apply steps_bind_ok in H. destruct H as [file_hash [m2 [H2 H]]].
  unfold Binary64._get_file_hash in H2. apply call_then_lift_result in H2.
  destruct H2 as [_ ->].
  apply steps_bind_ok in H. destruct H as [[n sr] [m3 [H3 H]]].
  apply call_then_lift_result in H3. destruct H3 as [Hread ->].
  cbn [Binary64.self Binary64.files Binary64.calls] in H.
  destruct (sr =? 0)%Z eqn:Esr; [discriminate |].
  apply steps_bind_ok in H. destruct H as [s [m4 [H4 H]]].
  unfold Binary64.get_self in H4. injection H4 as <- <-.
  cbn [Binary64.self] in H.
  apply steps_bind_ok in H. destruct H as [v [m5 [H5 H]]].
  destruct (Binary64.pipeline (Binary64.self m1)) as [p |] eqn:Ep;
    [| discriminate].
  apply call_then_lift_result in H5. destruct H5 as [Hinfer ->].
  apply steps_bind_ok in H. destruct H as [now [m6 [H6 H]]].
  unfold Binary64.get_calls in H6. injection H6 as <- <-.
  apply steps_bind_ok in H. destruct H as [fs [m7 [H7 H]]].
  unfold Binary64.get_files in H7. injection H7 as <- <-.
  cbn [Binary64.self Binary64.files Binary64.calls] in H.
  apply steps_bind_ok in H. destruct H as [u [m8 [H8 H]]].
  apply steps_bind_ok in H. destruct H as [u' [m9 [H9 H]]].
  unfold Binary64.ret in H. injection H as <- _.
  exists audio_path, p, n, sr, v, m1.
  rewrite <- Hself1.
  split; [reflexivity |]. split; [congruence |].
  split; [apply Z.eqb_neq; exact Esr |].
  split; [exact Ep |]. split; [congruence |].
  rewrite <- !app_assoc. cbn [app]. reflexivity.
Qed.

(** A success of [process_audio] is a success of the steps, run on a machine
    that has the fixed attributes of the initial one. *)
Lemma process_audio_returns env file_path m md evs m' :
  Binary64.process_audio env file_path m
  = (Ok (Binary64.Succeeded md evs), m') ->
  exists m3,
    Binary64.process_steps env file_path
      (Binary64.time env (Binary64.calls m)) m3
    = (Ok (Binary64.Succeeded md evs), m')
    /\ Binary64.fixed_attributes m3 = Binary64.fixed_attributes m.
Proof.
  unfold Binary64.process_audio. intros H.
  apply steps_bind_ok in H. destruct H as [before0 [m0 [H0 H]]].
  unfold Binary64.get_calls in H0. injection H0 as <- <-.
  unfold Binary64.try_except in H.
  match type of H with
  | context [match ?b ?x with _ => _ end] =>
      destruct (b x) as [[r | e] m1] eqn:E
  end; [| discriminate].
  injection H as -> ->.
  apply steps_bind_ok in E. destruct E as [s [m2 [H2 E]]].
  unfold Binary64.get_self in H2. injection H2 as <- <-.
  destruct (Binary64.pipeline (Binary64.self m)).
  - exists m. auto.
  - apply steps_bind_ok in E. destruct E as [init [m3 [H3 E]]].
    apply unchanged_fixed_init in H3.
    destruct (negb (dict_truthy (init_keys init))).
    + apply steps_bind_ok in E. destruct E as [s' [m4 [_ E]]].
      apply steps_bind_ok in E. destruct E as [h [m5 [_ E]]]. discriminate.
    + exists m3. auto.
Qed.



(** The duration of an event is rounded from the computed difference of the
    interval's bounds, not from the rounded [start] and [end] of the event:
    for the interval [(0.04999999999999999, 0.8505)] the event has
    [start = 0.05], [end = 0.851] and [duration = 0.8], while
    [round(0.851 - 0.05, 3)] is [0.801]. *)
Remark duration_is_rounded_from_the_computed_difference :
  let e := Binary64.speech_event
             (Binary64.mkSegment 0.04999999999999999 0.8505) in
  Binary64.ev_start e = 0.05%float
  /\ Binary64.ev_end e = 0.851%float
  /\ Binary64.ev_duration e = 0.8%float
  /\ Binary64.round3 (Binary64.ev_end e - Binary64.ev_start e) = 0.801%float.
Proof. repeat split; vm_compute; reflexivity. Qed.

(** X18.  The metadata of a success say what was done: [source] is the path
    given, [input_type] is ["video"] exactly when
    [Path(file_path).suffix.lower()] is one of the four video extensions,
    [model], [device] and [config] are those of the object, [duration_s] is
    the rounded float quotient [len(waveform) / sample_rate], and [rtf] is 0
    when that quotient is not positive (the division is guarded). *)
Theorem metadata_of_a_success (env : Binary64.Env) (file_path : string)
    (m m' : Binary64.Machine) (md : Binary64.Metadata)
    (evs : list Binary64.SpeechEvent) :
  Binary64.process_audio env file_path m
  = (Ok (Binary64.Succeeded md evs), m') ->
  Binary64.source md = file_path
  /\ (Binary64.input_type md = "video"
      \/ Binary64.input_type md = "audio")
  /\ (Binary64.input_type md = "video" <->
      In (Binary64.str_lower env (Binary64.suffix env file_path))
        [".mp4"; ".mkv"; ".avi"; ".mov"])
  /\ Binary64.profile md = "vad"
  /\ Binary64.model_used md = Binary64.model_id (Binary64.self m)
  /\ Binary64.device md = Binary64.device_str (Binary64.self m)
  /\ Binary64.config_used md = Binary64.config (Binary64.self m)
  /\ exists audio_path n sr,
       Binary64.sf_read env audio_path = Ok (n, sr)
       /\ sr <> 0%Z
       /\ Binary64.duration_s md
          = Binary64.round3
              (Binary64.float_of_int n / Binary64.float_of_int sr)
       /\ ((0 <? Binary64.float_of_int n / Binary64.float_of_int sr)%float
           = false ->
           Binary64.rtf md = 0%float).
Proof.
  intros H.
  destruct (process_audio_returns _ _ _ _ _ _ H) as [m3 [Hs Hfix]].
  apply process_steps_returns in Hs.
  destruct Hs as [audio_path [p [n [sr [v [m1 Hs]]]]]].
  destruct Hs as [_ [Hread [Hsr [_ [_ Hr]]]]].
  cbv zeta in Hr. injection Hr as -> _.
  unfold Binary64.fixed_attributes in Hfix. injection Hfix as Hc Hi _ Hd.
  cbn [Binary64.source Binary64.input_type Binary64.profile
       Binary64.model_used Binary64.device Binary64.config_used
       Binary64.duration_s Binary64.rtf].
  rewrite Hc, Hi, Hd.
  split; [reflexivity |].
  split; [destruct (Binary64.is_video_path env file_path); auto |].
  split.
  { unfold Binary64.is_video_path.
    destruct (existsb
                (String.eqb
                   (Binary64.str_lower env (Binary64.suffix env file_path)))
                video_extensions) eqn:E.
    - split; [intros _ | reflexivity].
      apply existsb_exists in E. destruct E as [x [Hin Hx]].
      apply String.eqb_eq in Hx. subst x. exact Hin.
    - split; [discriminate |]. intros Hin. exfalso.
      assert (Ht : existsb
                     (String.eqb
                        (Binary64.str_lower env
                           (Binary64.suffix env file_path)))
                     video_extensions = true).
      { apply existsb_exists. eexists. split; [exact Hin |].
        apply String.eqb_refl. }
      congruence. }
  repeat split.
  exists audio_path, n, sr. repeat split; auto.
  intros HD. rewrite HD. vm_compute. reflexivity.
Qed.

(** 96040 frames at 16 kHz: the float quotient is [6.0025], a hair above
    the decimal, and [duration_s] is [6.003]. *)
Lemma metadata_of_a_success_witness :
  exists md evs m',
    Binary64.process_audio Binary64.healthy_env "clip.MP4"
      (Binary64.mkMachine (Binary64.new_processor (Some "hf_token")) [] [])
    = (Ok (Binary64.Succeeded md evs), m')
    /\ Binary64.source md = "clip.MP4"
    /\ Binary64.input_type md = "video"
    /\ Binary64.duration_s md = 6.003%float.
Proof.
  let m := constr:(Binary64.mkMachine
                     (Binary64.new_processor (Some "hf_token")) [] []) in
  let run := eval vm_compute in
               (Binary64.process_audio Binary64.healthy_env "clip.MP4" m) in
  match run with
  | (Ok (Binary64.Succeeded ?md ?evs), ?m') =>
      exists md, evs, m';
      assert (E : Binary64.process_audio Binary64.healthy_env "clip.MP4" m
                  = (Ok (Binary64.Succeeded md evs), m'))
        by (vm_compute; reflexivity);
      split; [exact E |];
      destruct (metadata_of_a_success Binary64.healthy_env "clip.MP4" m m'
                  md evs E)
        as [H1 [_ [H2 _]]];
      split; [exact H1 |];
      split; [apply H2; vm_compute; auto | vm_compute; reflexivity]
  end.
Defined.

(** The steps on an audio file, when hashing, decoding and inference all
    return. *)
Lemma audio_steps_return env file_path t m h n sr p v :
  Binary64.is_video_path env file_path = false ->
  Binary64.sha256_file env file_path = Ok h ->
  Binary64.sf_read env file_path = Ok (n, sr) ->
  sr <> 0%Z ->
  Binary64.pipeline (Binary64.self m) = Some p ->
  Binary64.infer env p file_path = Ok v ->
  exists md,
    Binary64.process_steps env file_path t m
    = (Ok (Binary64.Succeeded md
             (map Binary64.speech_event
                (Binary64._post_process_segments
                   (Binary64.config (Binary64.self m))
                   (Binary64.timeline_segments v)
                   (Binary64.float_of_int n / Binary64.float_of_int sr)))),
       Binary64.mkMachine (Binary64.self m) (Binary64.files m)
         (Binary64.calls m ++ [HashFile file_path; SfRead file_path;
                               Infer p file_path; WriteReport file_path]))
    /\ Binary64.segments_count md
       = List.length
           (Binary64._post_process_segments
              (Binary64.config (Binary64.self m))
              (Binary64.timeline_segments v)
              (Binary64.float_of_int n / Binary64.float_of_int sr)).
Proof.
  intros Hvid Hhash Hread Hsr Hp Hinfer.
  unfold Binary64.process_steps, Binary64._get_file_hash,
    Binary64.save_results.
  fold (Binary64.is_video_path env file_path). rewrite Hvid.
  unfold Binary64.bind, Binary64.call, Binary64.lift, Binary64.ret,
    Binary64.get_self, Binary64.get_calls, Binary64.get_files.
  cbn [Binary64.self Binary64.files Binary64.calls andb].
  rewrite Hhash, Hread.
  apply Z.eqb_neq in Hsr. rewrite Hsr.
  cbn [Binary64.self Binary64.files Binary64.calls].
  rewrite Hp, Hinfer.
  cbn [Binary64.self Binary64.files Binary64.calls].
  rewrite <- !app_assoc. cbn [app].
  eexists. split; [reflexivity |].
  cbn [Binary64.segments_count]. apply length_map.
Qed.

(** X22.  No speech is not an error.  For an audio file that hashes and
    decodes, on a loaded engine whose answer contains no interval that
    passes the duration test (an unexpected shape, an empty timeline, or
    only intervals whose computed length is below [min_duration_s]),
    [process_audio] returns success with no event and
    [segments_count = 0], and hands the result to [save_results]. *)
Theorem silence_is_a_success (env : Binary64.Env) (file_path : string)
    (m : Binary64.Machine) (p : Pipeline) (h : string) (n sr : Z)
    (v : Binary64.VadResult) :
  Binary64.pipeline (Binary64.self m) = Some p ->
  Binary64.is_video_path env file_path = false ->
  Binary64.sha256_file env file_path = Ok h ->
  Binary64.sf_read env file_path = Ok (n, sr) ->
  sr <> 0%Z ->
  Binary64.infer env p file_path = Ok v ->
  Forall (fun s =>
            (Binary64.end_ s - Binary64.start s
             <? Binary64.min_duration_s (Binary64.config (Binary64.self m)))%float
            = true)
    (Binary64.timeline_segments v) ->
  exists md m',
    Binary64.process_audio env file_path m
    = (Ok (Binary64.Succeeded md []), m')
    /\ Binary64.segments_count md = 0%nat
    /\ In (WriteReport file_path) (Binary64.calls m').
Proof.
  intros Hp Hvid Hhash Hread Hsr Hinfer Hshort.
  destruct (audio_steps_return env file_path
              (Binary64.time env (Binary64.calls m)) m h n sr p v
              Hvid Hhash Hread Hsr Hp Hinfer) as [md [Hrun Hcount]].
  apply (every_test_true_gives_nil
           (Binary64.config (Binary64.self m))
           (Binary64.timeline_segments v)
           (Binary64.float_of_int n / Binary64.float_of_int sr))
    in Hshort.
  rewrite Hshort in Hrun, Hcount. cbn [map List.length] in Hrun, Hcount.
  exists md. eexists. split; [| split; [exact Hcount |]].
  - unfold Binary64.process_audio, Binary64.bind, Binary64.get_calls,
      Binary64.try_except, Binary64.get_self.
    cbv beta iota. rewrite Hp, Hrun. reflexivity.
  - cbn [Binary64.calls]. apply in_or_app. right. cbn. auto.
Qed.

(** Three bursts of 0.1 s, 0.25 s and 0.2 s: all below the default
    [min_duration_s = 0.3]. *)
Lemma silence_is_a_success_witness :
  exists md m',
    Binary64.process_audio Binary64.quiet_env "talk.wav"
      (Binary64.mkMachine
         (Binary64.with_pipeline (Binary64.new_processor None) (Some 1%nat))
         [] [])
    = (Ok (Binary64.Succeeded md []), m')
    /\ Binary64.segments_count md = 0%nat
    /\ In (WriteReport "talk.wav") (Binary64.calls m').
Proof.
  apply (silence_is_a_success Binary64.quiet_env "talk.wav"
           (Binary64.mkMachine
              (Binary64.with_pipeline (Binary64.new_processor None)
                 (Some 1%nat)) [] [])
           1%nat "e3b0c442" 96040%Z 16000%Z
           (Binary64.Annotation
              [Binary64.mkSegment 0.5 0.6; Binary64.mkSegment 2.0 2.25;
               Binary64.mkSegment 4.1 4.3])).
  - reflexivity.
  - vm_compute. reflexivity.
  - reflexivity.
  - reflexivity.
  - discriminate.
  - reflexivity.
  - repeat constructor.
Defined.
